(** * Video_search_engine: scene retrieval and collage assembly

    A shallow embedding of the three Python modules of the repository

      - [video_search_by_video.py]  (poll loop, time-code parsing, frame extraction)
      - [video_search_by_image.py]  (fuzzy caption matching)
      - [image_helpers.py]          (collage grid and composition)

    Python [float] is IEEE-754 binary64; it is modelled by the Standard
    Library's [spec_float] at precision 53 and maximal exponent 1024, so every
    rounding step of the source is computed, not idealised.  Python [int] is
    [Z].  Strings are ASCII [string]s; [float], which also reads blanks and
    digits beyond ASCII, takes those in UTF-8.  Exceptions are an explicit [result]
    type, and code that prints, writes files or holds the video handle is
    written in a state-and-exception monad over a record of the observable
    world. *)

From Stdlib Require Import ZArith Lia List Bool Ascii String.
From Stdlib Require Import SpecFloat.
From stdpp Require Import base option list gmap strings pretty.

Local Open Scope string_scope.
Local Open Scope Z_scope.

(** ** Exceptions *)

(** The exceptions met in the code.  [OSError] stands for the operating
    system errors that have no class of their own here. *)
Inductive exn : Type :=
  | FileNotFoundError
  | ValueError
  | OverflowError
  | FileExistsError
  | PermissionError
  | OSError.

Inductive result (A : Type) : Type :=
  | Ok (a : A)
  | Raise (e : exn).
Arguments Ok {A} a.
Arguments Raise {A} e.

Definition rbind {A B} (r : result A) (k : A -> result B) : result B :=
  match r with
  | Ok a => k a
  | Raise e => Raise e
  end.

Declare Scope result_scope.
Delimit Scope result_scope with result.
Notation "'let?' x ':=' r 'in' k" := (rbind r (fun x => k))
  (at level 10, x pattern, r at level 100, k at level 200) : result_scope.
Local Open Scope result_scope.

(** ** Effects: a state-and-exception monad

    A computation takes the world, and gives back either a value or the
    exception that escaped, together with the world as it stood then. *)

Definition Run (W A : Type) : Type := W -> result A * W.

Definition ret {W A} (a : A) : Run W A := fun w => (Ok a, w).
Definition raise {W A} (e : exn) : Run W A := fun w => (Raise e, w).
Definition bind {W A B} (m : Run W A) (k : A -> Run W B) : Run W B :=
  fun w => match m w with
           | (Ok a, w') => k a w'
           | (Raise e, w') => (Raise e, w')
           end.
Definition lift {W A} (r : result A) : Run W A := fun w => (r, w).

Notation "x <- m ;; k" := (bind m (fun x => k))
  (at level 100, m at next level, right associativity).
Notation "m ;; k" := (bind m (fun _ => k))
  (at level 100, right associativity).

(** ** Python floats: IEEE-754 binary64 *)

Module Float.

Definition prec : Z := 53.
Definition emax : Z := 1024.

Definition float : Type := spec_float.

Definition mul (x y : float) : float := SFmul prec emax x y.
Definition add (x y : float) : float := SFadd prec emax x y.
Definition sqrt (x : float) : float := SFsqrt prec emax x.

Definition zero : float := S754_zero false.

(** [float(n)] for a Python [int]: the nearest binary64 value, ties to
    even; an [int] beyond the binary64 range raises [OverflowError]
    ("int too large to convert to float"). *)
Definition of_int (n : Z) : result float :=
  match binary_normalize prec emax n 0 false with
  | S754_infinity _ => Raise OverflowError
  | f => Ok f
  end.

(** [int(x)] for a Python [float]: truncation toward zero; [nan] raises
    [ValueError], an infinity raises [OverflowError]. *)
Definition to_int (x : float) : result Z :=
  match x with
  | S754_zero _ => Ok 0
  | S754_nan => Raise ValueError
  | S754_infinity _ => Raise OverflowError
  | S754_finite s m e =>
      Ok (cond_Zopp s (match e with
                       | Zneg k => Z.shiftr (Zpos m) (Zpos k)
                       | _ => Z.shiftl (Zpos m) e
                       end))
  end.

(** [round(x)] for a Python [float]: the nearest integer, a tie going to
    the even neighbour. *)
Definition round (x : float) : result Z :=
  match x with
  | S754_zero _ => Ok 0
  | S754_nan => Raise ValueError
  | S754_infinity _ => Raise OverflowError
  | S754_finite s m e =>
      Ok (cond_Zopp s
            (match e with
             | Zneg k =>
                 let q := Z.shiftr (Zpos m) (Zpos k) in
                 let r := Zpos m - Z.shiftl q (Zpos k) in
                 match 2 * r ?= Z.shiftl 1 (Zpos k) with
                 | Lt => q
                 | Gt => q + 1
                 | Eq => if Z.even q then q else q + 1
                 end
             | _ => Z.shiftl (Zpos m) e
             end))
  end.

(** [x * n] with [x] a float and [n] an int: the int operand is converted
    first. *)
Definition mul_int (x : float) (n : Z) : result float :=
  let? w := of_int n in Ok (mul x w).

(** The binary64 value nearest to the decimal [(-1)^neg * m * 10^e10]
    (correctly rounded, as CPython's [strtod] is). *)
Definition of_decimal (neg : bool) (m : Z) (e10 : Z) : float :=
  match m with
  | Zpos p =>
      match e10 with
      | Zneg k =>
          let '(q, e, l) :=
            SFdiv_core_binary prec emax (Zpos p) 0 (Z.pow_pos 10 k) 0 in
          binary_round_aux prec emax neg q e l
      | _ => binary_normalize prec emax (cond_Zopp neg (Zpos p * 10 ^ e10)) 0 neg
      end
  | _ => S754_zero neg
  end.

(** A mantissa and exponent that rounding can take: the mantissa is not
    negative and the exponent is not above the one the format gives a number
    of that size. *)
Definition fits (m e : Z) : Prop :=
  0 <= m /\ e <= fexp prec emax (Zdigits2 m + e).

End Float.

(** ** Python string primitives *)

Module Str.

Definition is_digit (c : ascii) : bool :=
  let n := nat_of_ascii c in (48 <=? n)%nat && (n <=? 57)%nat.

Definition digit_val (c : ascii) : Z := Z.of_nat (nat_of_ascii c) - 48.

(** [c.isspace()] on ASCII: the blanks of [strip] and [split]. *)
Definition is_space (c : ascii) : bool :=
  let n := nat_of_ascii c in
  ((9 <=? n)%nat && (n <=? 13)%nat) || ((28 <=? n)%nat && (n <=? 32)%nat).

Definition lower_ascii (c : ascii) : ascii :=
  let n := nat_of_ascii c in
  if (65 <=? n)%nat && (n <=? 90)%nat then ascii_of_nat (n + 32) else c.

(** [s.lower()] on ASCII text. *)
Fixpoint lower (s : string) : string :=
  match s with
  | EmptyString => EmptyString
  | String c s' => String (lower_ascii c) (lower s')
  end.

(** [s.split(sep)] for a one-character separator: never empty, and
    [len(result) = 1 + s.count(sep)]. *)
Fixpoint split (sep : ascii) (s : string) : list string :=
  match s with
  | EmptyString => [EmptyString]
  | String c s' =>
      if Ascii.eqb c sep then EmptyString :: split sep s'
      else match split sep s' with
           | w :: ws => String c w :: ws
           | [] => [String c EmptyString]
           end
  end.

Fixpoint lstrip (s : string) : string :=
  match s with
  | String c s' => if is_space c then lstrip s' else s
  | EmptyString => EmptyString
  end.

Fixpoint rstrip (s : string) : string :=
  match s with
  | EmptyString => EmptyString
  | String c s' =>
      match rstrip s' with
      | EmptyString => if is_space c then EmptyString else String c EmptyString
      | r => String c r
      end
  end.

Definition strip (s : string) : string := rstrip (lstrip s).

(** [os.path.join(d, name)] on POSIX for a relative [name]. *)
Fixpoint ends_with_slash (d : string) : bool :=
  match d with
  | EmptyString => false
  | String c EmptyString => Ascii.eqb c "/"
  | String _ d' => ends_with_slash d'
  end.

Definition path_join (d name : string) : string :=
  match d with
  | EmptyString => name
  | _ => if ends_with_slash d then d +:+ name else d +:+ "/" +:+ name
  end.

End Str.

(** ** [float(s)] on a string

    CPython's [float] first brings a string that is not all ASCII to ASCII
    (every Unicode blank becomes a space and every Unicode decimal digit its
    ASCII digit; any other character beyond ASCII becomes ['?'] and ends the
    string), then removes single underscores between digits, then strips
    the surrounding blanks of the C locale (tab to carriage return, and
    space), then reads either a decimal literal
    [[sign] digits [. digits] [(e|E) [sign] digits]] with at least one
    mantissa digit, or (case-insensitively) [[sign] inf], [[sign] infinity]
    or [[sign] nan].  The whole string has to be consumed; anything else is
    a [ValueError].

    A [string] stands for the Python string it encodes in UTF-8. *)

Module FloatLiteral.
Import Float Str.

Definition code (c : ascii) : Z := Z.of_N (N_of_ascii c).

(** [Py_ISSPACE]: the blanks stripped around the literal.  The separators
    28 to 31, which [str.strip] removes, are not among them. *)
Definition Py_ISSPACE (c : ascii) : bool :=
  let n := code c in ((9 <=? n) && (n <=? 13)) || (n =? 32).

(** [Py_UNICODE_ISSPACE] beyond ASCII. *)
Definition unicode_space (cp : Z) : bool :=
  (cp =? 133) || (cp =? 160) || (cp =? 5760) ||
  ((8192 <=? cp) && (cp <=? 8202)) ||
  (cp =? 8232) || (cp =? 8233) || (cp =? 8239) || (cp =? 8287) || (cp =? 12288).

(** The code points of the digits zero of the decimal number systems beyond
    ASCII (Unicode 14, the table of CPython 3.11); the digits one to nine
    follow each of them. *)
Definition decimal_zeros : list Z :=
  [1632; 1776; 1984; 2406; 2534; 2662; 2790; 2918; 3046; 3174; 3302; 3430;
   3558; 3664; 3792; 3872; 4160; 4240; 6112; 6160; 6470; 6608; 6784; 6800;
   6992; 7088; 7232; 7248; 42528; 43216; 43264; 43472; 43504; 43600; 44016;
   65296; 66720; 68912; 69734; 69872; 69942; 70096; 70384; 70736; 70864;
   71248; 71360; 71472; 71904; 72016; 72784; 73040; 73120; 92768; 92864;
   93008; 120782; 120792; 120802; 120812; 120822; 123200; 123632; 125264;
   130032].

(** [Py_UNICODE_TODECIMAL] beyond ASCII. *)
Definition unicode_decimal (cp : Z) : option Z :=
  match List.find (fun z => (z <=? cp) && (cp <=? z + 9)) decimal_zeros with
  | Some z => Some (cp - z)
  | None => None
  end.

(** The ASCII character written for a code point from 127 on, if any. *)
Definition to_ascii_char (cp : Z) : option ascii :=
  if unicode_space cp then Some " "%char
  else match unicode_decimal cp with
       | Some d => Some (ascii_of_N (Z.to_N (48 + d)))
       | None => None
       end.

Definition emit (cp : Z) (rest : string) : string :=
  match to_ascii_char cp with
  | Some c => String c rest
  | None => "?"
  end.

(** The payload of a UTF-8 continuation byte. *)
Definition continuation (c : ascii) : option Z :=
  let n := code c in
  if (128 <=? n) && (n <=? 191) then Some (n - 128) else None.

(** [_PyUnicode_TransformDecimalAndSpaceToASCII] on a string that is not all
    ASCII, reading the code points off their UTF-8 bytes.  Bytes that encode
    no code point are written ['?'], as is every character that is neither a
    blank nor a decimal digit. *)
Fixpoint to_ascii (s : string) : string :=
  match s with
  | EmptyString => EmptyString
  | String c s1 =>
      let b := code c in
      if b <? 127 then String c (to_ascii s1)
      else if b <? 194 then "?"
      else if b <? 224 then
        match s1 with
        | String c2 s2 =>
            match continuation c2 with
            | Some x2 => emit ((b - 192) * 64 + x2) (to_ascii s2)
            | None => "?"
            end
        | EmptyString => "?"
        end
      else if b <? 240 then
        match s1 with
        | String c2 (String c3 s3) =>
            match continuation c2, continuation c3 with
            | Some x2, Some x3 =>
                let cp := (b - 224) * 4096 + x2 * 64 + x3 in
                if (2048 <=? cp) && negb ((55296 <=? cp) && (cp <=? 57343))
                then emit cp (to_ascii s3) else "?"
            | _, _ => "?"
            end
        | _ => "?"
        end
      else
        match s1 with
        | String c2 (String c3 (String c4 s4)) =>
            match continuation c2, continuation c3, continuation c4 with
            | Some x2, Some x3, Some x4 =>
                let cp := (b - 240) * 262144 + x2 * 4096 + x3 * 64 + x4 in
                if (65536 <=? cp) && (cp <=? 1114111)
                then emit cp (to_ascii s4) else "?"
            | _, _, _ => "?"
            end
        | _ => "?"
        end
  end.

Definition is_ascii (s : string) : bool :=
  forallb (fun c => code c <? 128) (list_ascii_of_string s).

(** An ASCII string is taken as it is. *)
Definition transform (s : string) : string :=
  if is_ascii s then s else to_ascii s.

Fixpoint skip_leading (s : string) : string :=
  match s with
  | String c s' => if Py_ISSPACE c then skip_leading s' else s
  | EmptyString => EmptyString
  end.

Fixpoint skip_trailing (s : string) : string :=
  match s with
  | EmptyString => EmptyString
  | String c s' =>
      match skip_trailing s' with
      | EmptyString => if Py_ISSPACE c then EmptyString else String c EmptyString
      | r => String c r
      end
  end.

Fixpoint drop_underscores (prev : ascii) (s : string) : option string :=
  match s with
  | EmptyString => if Ascii.eqb prev "_" then None else Some EmptyString
  | String c s' =>
      if Ascii.eqb c "_" then
        if is_digit prev then drop_underscores c s' else None
      else if Ascii.eqb prev "_" && negb (is_digit c) then None
      else option_map (String c) (drop_underscores c s')
  end.

Fixpoint digits (s : string) (acc n : Z) : Z * Z * string :=
  match s with
  | String c s' =>
      if is_digit c then digits s' (10 * acc + digit_val c) (n + 1)
      else (acc, n, s)
  | EmptyString => (acc, n, s)
  end.

Definition sign (s : string) : bool * string :=
  match s with
  | String "-" s' => (true, s')
  | String "+" s' => (false, s')
  | _ => (false, s)
  end.

Definition exponent (s : string) : option Z :=
  match s with
  | EmptyString => Some 0
  | String c s' =>
      if Ascii.eqb c "e" || Ascii.eqb c "E" then
        let (neg, s1) := sign s' in
        let '(v, n, rest) := digits s1 0 0 in
        if Z.ltb 0 n && String.eqb rest "" then Some (cond_Zopp neg v)
        else None
      else None
  end.

Definition number (s : string) : option float :=
  let (neg, s0) := sign s in
  let '(ip, ni, s1) := digits s0 0 0 in
  let '(m, nf, s2) :=
    match s1 with
    | String "." s1' => digits s1' ip 0
    | _ => (ip, 0, s1)
    end in
  if Z.ltb 0 (ni + nf) then
    match exponent s2 with
    | Some e => Some (of_decimal neg m (e - nf))
    | None => None
    end
  else None.

Definition inf_or_nan (s : string) : option float :=
  let (neg, s0) := sign s in
  let l := lower s0 in
  if String.eqb l "inf" || String.eqb l "infinity" then Some (S754_infinity neg)
  else if String.eqb l "nan" then Some S754_nan
  else None.

Definition py_float (s : string) : result float :=
  match drop_underscores Ascii.zero (transform s) with
  | None => Raise ValueError
  | Some s1 =>
      let body := skip_trailing (skip_leading s1) in
      match number body with
      | Some v => Ok v
      | None =>
          match inf_or_nan body with
          | Some v => Ok v
          | None => Raise ValueError
          end
      end
  end.

End FloatLiteral.

(** ** Time-code parsing ([video_search_by_video.py], line 141)

    [sum(float(x) * 60 ** i for i, x in enumerate(reversed(time_point.split(':'))))]

    The generator is consumed left to right: for each pair, [float(x)] is
    evaluated first (it may raise [ValueError]), then [60 ** i] is converted
    for the product (it may raise [OverflowError]), and the product is added
    to the running total, which starts at the integer [0].  Additions are
    plain binary64 additions in that order (CPython's [sum] up to 3.11; from
    3.12 on [sum] also carries a compensation term, which stays zero as long
    as the partial sums are exact). *)

Module TimeCode.
Import Float Str FloatLiteral.

Definition enumerate {A} (l : list A) : list (nat * A) :=
  combine (seq 0 (length l)) l.

Definition term (ix : nat * string) : result float :=
  let (i, x) := ix in
  let? v := py_float x in
  mul_int v (60 ^ Z.of_nat i).

Fixpoint sum_terms (total : float) (g : list (nat * string)) : result float :=
  match g with
  | [] => Ok total
  | ix :: g' => let? t := term ix in sum_terms (add total t) g'
  end.

Definition parse_time_point (time_point : string) : result float :=
  sum_terms zero (enumerate (rev (split ":" time_point))).

(** The sum as the specification words it.  [vs] are the field values in
    written order; the field at position [i] counted from the right is
    [vs[len - 1 - i]] and weighs [60 ** i]; positions are added from 0
    upwards, with Python's float-by-int product and float addition. *)

Definition weighted_field (vs : list float) (i : nat) : result float :=
  mul_int (nth (length vs - 1 - i) vs zero) (60 ^ Z.of_nat i).

Fixpoint sum_by (f : nat -> result float) (total : float) (positions : list nat)
    : result float :=
  match positions with
  | [] => Ok total
  | i :: rest => let? t := f i in sum_by f (add total t) rest
  end.

Definition positional_sum (vs : list float) : result float :=
  sum_by (weighted_field vs) zero (seq 0 (length vs)).

(** The binary64 number 1.0, the weight [float(60 ** 0)]. *)
Definition one : float := S754_finite false 4503599627370496 (-52).

(** Every weight up to position [n] is in binary64 range. *)
Definition weights_in_range (n : nat) : bool :=
  forallb (fun i => match of_int (60 ^ Z.of_nat i) with
                    | Ok _ => true
                    | Raise _ => false
                    end) (seq 0 n).

Definition has_colon (s : string) : bool :=
  existsb (Ascii.eqb ":") (list_ascii_of_string s).

(** The time point ["0:0:...:0"] of [n] fields. *)
Definition zero_fields (n : nat) : string := String.concat ":" (repeat "0" n).

End TimeCode.

(** ** Frame extraction ([extract_frames_from_video]) *)

Module Extractor.
Import Float Str TimeCode.

(** A decoded frame: raster data, opaque to the extractor. *)
Definition frame : Type := list Z.

(** What [cv2.VideoCapture(path)] gives: whether the container opened, its
    frame rate, and the outcome of [set(CAP_PROP_POS_FRAMES, n)] followed
    by [read()].  The decoder is an external device, so the outcome may
    depend on every seek made so far; [seek_read history n] receives the
    earlier seeks, most recent first. *)
Record capture : Type := {
  isOpened : bool;
  CAP_PROP_FPS : float;
  seek_read : list Z -> Z -> option frame
}.

(** The host the call runs on. [EXTRACTED_IMAGES_DIR] comes from the
    configuration module.  [mkdir_error d] is what the operating system
    answers when asked to create the directory [d], parents included, where
    there is no entry of that name yet: nothing, or the [OSError] it raises
    ([PermissionError], a read-only file system, a parent that is a file,
    ...). *)
Record env : Type := {
  EXTRACTED_IMAGES_DIR : string;
  path_exists : string -> bool;
  VideoCapture : string -> capture;
  mkdir_error : string -> option exn
}.

(** Observable state: files written, directories made, lines printed,
    whether the video handle is held, and the seeks issued on it. *)
Record world : Type := {
  fs : gmap string frame;
  dirs : gset string;
  stdout : list string;
  handle_open : bool;
  seeks : list Z
}.

Definition M : Type -> Type := Run world.

Definition print (line : string) : M unit :=
  fun w => (Ok tt, {| fs := fs w; dirs := dirs w; stdout := (stdout w ++ [line])%list;
                      handle_open := handle_open w; seeks := seeks w |}).

(** [os.makedirs(d, exist_ok=True)].  An empty name is a
    [FileNotFoundError]; a directory that is there already is left alone; a
    file of that name is a [FileExistsError]; otherwise the host creates the
    directory or refuses.  Nothing changes when it raises. *)
Definition with_dir (d : string) (w : world) : world :=
  {| fs := fs w; dirs := {[ d ]} ∪ dirs w; stdout := stdout w;
     handle_open := handle_open w; seeks := seeks w |}.

Definition makedirs (h : env) (d : string) : M unit :=
  fun w =>
    if String.eqb d "" then (Raise FileNotFoundError, w)
    else if bool_decide (d ∈ dirs w) then (Ok tt, with_dir d w)
    else match fs w !! d with
         | Some _ => (Raise FileExistsError, w)
         | None =>
             match mkdir_error h d with
             | Some e => (Raise e, w)
             | None => (Ok tt, with_dir d w)
             end
         end.

(** [cv2.imwrite(file, frame)]; the directory has been made by then. *)
Definition imwrite (file : string) (f : frame) : M unit :=
  fun w => (Ok tt, {| fs := <[ file := f ]> (fs w); dirs := dirs w; stdout := stdout w;
                      handle_open := handle_open w; seeks := seeks w |}).

Definition set_handle (b : bool) : M unit :=
  fun w => (Ok tt, {| fs := fs w; dirs := dirs w; stdout := stdout w;
                      handle_open := b; seeks := seeks w |}).

(** [video.set(cv2.CAP_PROP_POS_FRAMES, n); success, frame = video.read()] *)
Definition set_and_read (video : capture) (n : Z) : M (option frame) :=
  fun w => (Ok (seek_read video (seeks w) n),
            {| fs := fs w; dirs := dirs w; stdout := stdout w;
               handle_open := handle_open w; seeks := n :: seeks w |}).

Definition frame_name (seconds : Z) : string :=
  "frame_" +:+ pretty seconds +:+ "s.jpg".

(** One iteration of the [for time_point in time_points] loop; the result
    is the local [extracted_files] after it. *)
Definition loop_body (video : capture) (output_dir : string)
    (extracted_files : list string) (time_point : string) : M (list string) :=
  match parse_time_point time_point with
  | Raise ValueError =>
      print ("Invalid time point: " +:+ time_point +:+ ". Skipping.") ;;
      ret extracted_files
  | Raise e => raise e
  | Ok time_in_seconds =>
      frame_number <- lift (to_int (mul time_in_seconds (CAP_PROP_FPS video))) ;;
      read <- set_and_read video frame_number ;;
      match read with
      | Some frame =>
          seconds <- lift (to_int time_in_seconds) ;;
          let output_file := path_join output_dir (frame_name seconds) in
          imwrite output_file frame ;;
          ret (extracted_files ++ [output_file])%list
      | None =>
          print ("Warning: Could not extract frame at " +:+ time_point +:+ ".") ;;
          ret extracted_files
      end
  end.

Fixpoint for_loop (video : capture) (output_dir : string)
    (extracted_files : list string) (time_points : list string) : M (list string) :=
  match time_points with
  | [] => ret extracted_files
  | time_point :: rest =>
      extracted_files' <- loop_body video output_dir extracted_files time_point ;;
      for_loop video output_dir extracted_files' rest
  end.

(** The function body up to its [return] statement, giving the locals
    [output_dir] and [extracted_files] as they stand there. *)
Definition extract_frames_locals (h : env) (time_points : list string)
    (video_path : string) : M (string * list string) :=
  if negb (path_exists h video_path) then raise FileNotFoundError
  else
    let output_dir := EXTRACTED_IMAGES_DIR h in
    makedirs h output_dir ;;
    let video := VideoCapture h video_path in
    set_handle (isOpened video) ;;
    if negb (isOpened video) then raise ValueError
    else
      extracted_files <- for_loop video output_dir [] time_points ;;
      set_handle false ;;
      ret (output_dir, extracted_files).

(** [return output_dir]: what the caller receives. *)
Definition extract_frames_from_video (h : env) (time_points : list string)
    (video_path : string) : M string :=
  locals <- extract_frames_locals h time_points video_path ;;
  ret (fst locals).


(** A sample host: ["trailer.mp4"] is a video of 100 frames at 30.0 frames
    per second; frame [n] decodes to the raster [[n]], whatever was read
    before. *)
Definition sample_video : capture :=
  {| isOpened := true;
     CAP_PROP_FPS := S754_finite false 8444249301319680 (-48);
     seek_read := fun _ n => if (0 <=? n) && (n <? 100) then Some [n] else None |}.

Definition sample_host : env :=
  {| EXTRACTED_IMAGES_DIR := "extracted_images";
     path_exists := fun p => String.eqb p "trailer.mp4";
     VideoCapture := fun _ => sample_video;
     mkdir_error := fun _ => None |}.

Definition empty_world : world :=
  {| fs := ∅; dirs := ∅; stdout := []; handle_open := false; seeks := [] |}.

(** The sample host configured with an empty output directory, and the
    sample host on a file system that cannot be written. *)
Definition nameless_host : env :=
  {| EXTRACTED_IMAGES_DIR := "";
     path_exists := path_exists sample_host;
     VideoCapture := VideoCapture sample_host;
     mkdir_error := fun _ => None |}.

Definition read_only_host : env :=
  {| EXTRACTED_IMAGES_DIR := "extracted_images";
     path_exists := path_exists sample_host;
     VideoCapture := VideoCapture sample_host;
     mkdir_error := fun _ => Some PermissionError |}.

End Extractor.

(** ** Polling the uploaded video ([chat_with_gemini], lines 63-72) *)

Module Poll.

(** [File.State] of the generative-AI client. *)
Inductive file_state : Type :=
  | STATE_UNSPECIFIED
  | PROCESSING
  | ACTIVE
  | FAILED.

Definition is_active (s : file_state) : bool :=
  match s with
  | ACTIVE => true
  | _ => false
  end.

(** The remote service: the state the upload comes back with, and the state
    reported by the [k]-th later call of [genai.get_file]. *)
Record service : Type := {
  upload_file : file_state;
  get_file : nat -> file_state
}.

Definition max_retries : Z := 10.

(** The variables of the loop, the seconds spent in [time.sleep], the
    number of [get_file] calls made, and the progress lines printed (state
    seen, retry number shown, limit shown). *)
Record vars : Type := {
  video_file_state : file_state;
  retries : Z;
  slept : Z;
  calls : nat;
  printed : list (file_state * Z * Z)
}.

Definition start (svc : service) : vars :=
  {| video_file_state := upload_file svc; retries := 0; slept := 0;
     calls := 0; printed := [] |}.

(** The body of the [while] loop. *)
Definition body (svc : service) (v : vars) : vars :=
  {| video_file_state := get_file svc (calls v);
     retries := retries v + 1;
     slept := slept v + 15;
     calls := S (calls v);
     printed := (printed v ++ [(video_file_state v, retries v + 1, max_retries)])%list |}.

(** [while video_file.state != State.ACTIVE: body].  [None] means the loop
    is still running when the fuel is spent. *)
Fixpoint while_not_active (fuel : nat) (svc : service) (v : vars) : option vars :=
  if is_active (video_file_state v) then Some v
  else match fuel with
       | O => None
       | S fuel' => while_not_active fuel' svc (body svc v)
       end.

(** The loop variables after [n] turns of the body. *)
Fixpoint turns (n : nat) (svc : service) (v : vars) : vars :=
  match n with
  | O => v
  | S n' => turns n' svc (body svc v)
  end.

(** A service on which the file stays in [PROCESSING] for ever. *)
Definition stuck : service :=
  {| upload_file := PROCESSING; get_file := fun _ => PROCESSING |}.

(** A service on which the file is [ACTIVE] from the third poll on. *)
Definition ready_after_three : service :=
  {| upload_file := PROCESSING;
     get_file := fun k => if (k <? 2)%nat then PROCESSING else ACTIVE |}.

End Poll.

(** ** Fuzzy caption matching ([find_matched_captions]) *)

Module Matcher.
Import Str.

(** What opening and loading the caption store gives: no such file,
    content that [json.load] rejects, or the mapping's items in order. *)
Inductive caption_store : Type :=
  | Missing
  | Malformed
  | Captions (items : list (string * string)).

Section WithScorer.

(** [fuzz.partial_ratio] of the fuzzywuzzy library. *)
Variable partial_ratio : string -> string -> Z.

(** The [for scene_path, caption in scene_captions.items()] loop;
    [THRESHOLD] comes from the configuration module. *)
Fixpoint scan (THRESHOLD : Z) (input_word : string)
    (matched_scenes : list string) (items : list (string * string)) : list string :=
  match items with
  | [] => matched_scenes
  | (scene_path, caption) :: rest =>
      let similarity := partial_ratio (lower input_word) (lower caption) in
      if THRESHOLD <=? similarity
      then scan THRESHOLD input_word (matched_scenes ++ [scene_path])%list rest
      else scan THRESHOLD input_word matched_scenes rest
  end.

(** The world is the list of printed lines. *)
Definition find_matched_captions (THRESHOLD : Z) (store : caption_store)
    (input_word : string) : Run (list string) (list string) :=
  let matched_scenes := [] in
  match store with
  | Missing => raise FileNotFoundError
  | Malformed =>
      fun out => (Ok matched_scenes, (out ++ ["Error: JSON file is invalid."])%list)
  | Captions items => ret (scan THRESHOLD input_word matched_scenes items)
  end.

(** Whether the loop keeps an item at a given threshold. *)
Definition accepts (THRESHOLD : Z) (input_word : string) (item : string * string)
    : bool :=
  THRESHOLD <=? partial_ratio (lower input_word) (lower (snd item)).

End WithScorer.

(** A stand-in scorer for examples: 100 when the query is a prefix of the
    caption, 0 otherwise. *)
Definition prefix_score (query caption : string) : Z :=
  if String.prefix query caption then 100 else 0.

End Matcher.

(** ** Collage layout ([image_helpers.py]) *)

Module Collage.

(** A PIL image: where it was loaded from and its size. *)
Record image : Type := {
  source : string;
  width : Z;
  height : Z
}.

Record paste : Type := {
  pasted : image;
  x_at : Z;
  y_at : Z
}.

(** A canvas: its size and the pastes made onto the white background, in
    order. *)
Record canvas : Type := {
  canvas_width : Z;
  canvas_height : Z;
  pastes : list paste
}.

Record world : Type := {
  files : gmap string canvas;
  stdout : list string;
  browser : list string
}.

Definition print (line : string) : Run world unit :=
  fun w => (Ok tt, {| files := files w; stdout := (stdout w ++ [line])%list;
                      browser := browser w |}).

Definition save (file : string) (c : canvas) : Run world unit :=
  fun w => (Ok tt, {| files := <[ file := c ]> (files w); stdout := stdout w;
                      browser := browser w |}).

Definition webbrowser_open (file : string) : Run world unit :=
  fun w => (Ok tt, {| files := files w; stdout := stdout w;
                      browser := (browser w ++ [file])%list |}).

(** [int(num_images ** 0.5)]: the float square root, truncated.  On the
    lengths a list of images can have this is the integer square root,
    which is what the grid is defined with; [sqrt_binary64] is the binary64
    evaluation, and the two are checked to agree on every count up to
    65536. *)
Definition int_sqrt (num_images : Z) : Z := Z.sqrt num_images.

Definition sqrt_binary64 (num_images : Z) : result Z :=
  let? x := Float.of_int num_images in Float.to_int (Float.sqrt x).

(** [agree_down k n]: the two agree on the [k] counts [n, n-1, ...]. *)
Fixpoint agree_down (k : nat) (n : Z) : bool :=
  match k with
  | O => true
  | S k' =>
      match sqrt_binary64 n with
      | Ok s => s =? int_sqrt n
      | Raise _ => false
      end && agree_down k' (n - 1)
  end.

Definition cols (num_images : Z) : Z :=
  if num_images =? 1 then 1 else int_sqrt num_images + 1.

Definition rows (num_images : Z) : Z :=
  let rows := num_images / cols num_images in
  if negb (num_images mod cols num_images =? 0) then rows + 1 else rows.

Definition resize (img : image) (w h : Z) : image :=
  {| source := source img; width := w; height := h |}.

(** The paste loop, from the offsets [(x_offset, y_offset)]. *)
Fixpoint paste_all (thumb_width thumb_height collage_width : Z)
    (x_offset y_offset : Z) (resized_images : list image) : list paste :=
  match resized_images with
  | [] => []
  | img :: rest =>
      let p := {| pasted := img; x_at := x_offset; y_at := y_offset |} in
      let x_offset := x_offset + thumb_width in
      if collage_width <=? x_offset
      then p :: paste_all thumb_width thumb_height collage_width 0 (y_offset + thumb_height) rest
      else p :: paste_all thumb_width thumb_height collage_width x_offset y_offset rest
  end.

Section WithImages.

(** [Image.open(path).convert('RGB')]; it raises when the file is absent
    or not an image. *)
Variable image_open : string -> result image.

Fixpoint load (images_path_list : list string) : result (list image) :=
  match images_path_list with
  | [] => Ok []
  | image_path :: rest =>
      let? image_PIL := image_open image_path in
      let? images := load rest in
      Ok (image_PIL :: images)
  end.

Definition create_collage (images_path_list : list string)
    (collage_width collage_height : Z) (output_file : string) : Run world unit :=
  images <- lift (load images_path_list) ;;
  let num_images := Z.of_nat (length images) in
  if num_images =? 0 then print "No images found for the given search term."
  else
    let cols := cols num_images in
    let rows := rows num_images in
    let thumb_width := collage_width / cols in
    let thumb_height := collage_height / rows in
    let resized_images := map (fun img => resize img thumb_width thumb_height) images in
    let collage :=
      {| canvas_width := collage_width; canvas_height := collage_height;
         pastes := paste_all thumb_width thumb_height collage_width 0 0 resized_images |} in
    save output_file collage ;;
    print ("Collage created and saved to " +:+ output_file).

Definition generate_collage (images_path_list : list string) : Run world unit :=
  match images_path_list with
  | [] => print "No images found for the given search term."
  | _ =>
      let collage_width := 800 in
      let collage_height := 600 in
      let output_file := "collage.png" in
      create_collage images_path_list collage_width collage_height output_file ;;
      webbrowser_open output_file
  end.

End WithImages.

(** A host on which every path opens as a 640x480 image. *)
Definition any_image (path : string) : result image :=
  Ok {| source := path; width := 640; height := 480 |}.

Definition blank : world := {| files := ∅; stdout := []; browser := [] |}.

End Collage.

(** ** Where the paste loop puts the tiles *)

Module Layout.
Import Collage.

(** The number of pastes after which [x_offset] reaches the canvas width:
    the least [k] with [k * thumb_width >= collage_width]. *)
Definition per_row (thumb_width collage_width : Z) : Z :=
  (collage_width + thumb_width - 1) / thumb_width.

(** A paste that lies within a canvas of the given size. *)
Definition inside (collage_width collage_height : Z) (p : paste) : Prop :=
  0 <= x_at p /\ x_at p + width (pasted p) <= collage_width /\
  0 <= y_at p /\ y_at p + height (pasted p) <= collage_height.

(** Five image paths. *)
Definition five : list string := ["a.jpg"; "b.jpg"; "c.jpg"; "d.jpg"; "e.jpg"].

End Layout.

(** ** What a run of the extractor leaves behind *)

Module Plan.
Import Extractor.

(** Writing a sequence of files, in order. *)
Definition apply_writes (m : gmap string frame) (ws : list (string * frame))
    : gmap string frame :=
  fold_left (fun m pf => <[ fst pf := snd pf ]> m) ws m.

(** A path of the form [<dir>/frame_<k>s.jpg]. *)
Definition frame_file (dir path : string) : Prop :=
  exists k : Z, path = Str.path_join dir (frame_name k).

(** [w'] comes from [w] by the writes [ws], all to frame files of [dir], by
    printing more lines and by issuing more seeks; nothing else differs. *)
Definition extends (dir : string) (w w' : world) (ws : list (string * frame)) : Prop :=
  fs w' = apply_writes (fs w) ws /\
  Forall (fun pf => frame_file dir (fst pf)) ws /\
  (exists lines, stdout w' = (stdout w ++ lines)%list) /\
  (exists issued, seeks w' = (issued ++ seeks w)%list) /\
  dirs w' = dirs w /\
  handle_open w' = handle_open w.

(** A decoder whose answer for a frame index does not depend on the seeks
    made before. *)
Definition memoryless (video : capture) : Prop :=
  forall history1 history2 n, seek_read video history1 n = seek_read video history2 n.

End Plan.

(** ** The states the poll loop meets *)

Module PollRun.
Import Poll.

(** The [j]-th state the loop tests: first the state of the upload, then
    what each call of [get_file] reports. *)
Definition seen (svc : service) (j : nat) : file_state :=
  match j with
  | O => upload_file svc
  | S i => get_file svc i
  end.

(** A service on which the file is [ACTIVE] from the [n]-th test on. *)
Definition active_from (n : nat) : service :=
  {| upload_file := if (n =? 0)%nat then ACTIVE else PROCESSING;
     get_file := fun i => if (n <=? S i)%nat then ACTIVE else FAILED |}.

End PollRun.

(** ** Caption words ([load_caption_words]) *)

Module Words.
Import Str Matcher.

(** [s.split()] without arguments: the maximal runs of characters that are
    not whitespace, in order.  [current] is the run being read. *)
Fixpoint words_from (current : string) (s : string) : list string :=
  match s with
  | EmptyString =>
      match current with
      | EmptyString => []
      | _ => [current]
      end
  | String c rest =>
      if is_space c then
        match current with
        | EmptyString => words_from EmptyString rest
        | _ => current :: words_from EmptyString rest
        end
      else words_from (current +:+ String c EmptyString) rest
  end.

Definition split_whitespace (s : string) : list string := words_from EmptyString s.

(** The [for caption in scene_captions.values()] loop on the set
    [words_set]. *)
Fixpoint collect (words_set : gset string) (items : list (string * string))
    : gset string :=
  match items with
  | [] => words_set
  | (_, caption) :: rest =>
      let words := split_whitespace (lower caption) in
      collect (words_set ∪ list_to_set words) rest
  end.

(** [list(words_set)]: the elements in some order.  The world is the list
    of printed lines. *)
Definition load_caption_words (store : caption_store) : Run (list string) (list string) :=
  let words_set : gset string := ∅ in
  match store with
  | Missing => raise FileNotFoundError
  | Malformed =>
      fun out => (Ok (elements words_set), (out ++ ["Error: JSON file is invalid."])%list)
  | Captions items => ret (elements (collect words_set items))
  end.

Definition no_space (w : string) : Prop :=
  Forall (fun c => is_space c = false) (list_ascii_of_string w).

End Words.

(** ** The prompts ([ask_user_input], [ask_user_for_search]) and
    [search_by_image] *)

Module Prompt.
Import Str Matcher Words.

(** How a call of these functions ends: with a value, or with one of the
    exceptions met here. *)
Inductive outcome (A : Type) : Type :=
  | Returned (a : A)
  | EOFError
  | TypeError
  | Raised (e : exn).
Arguments Returned {A} a.
Arguments EOFError {A}.
Arguments TypeError {A}.
Arguments Raised {A} e.

(** A line is blank when [line.strip()] is empty. *)
Definition blank (line : string) : bool := String.eqb (strip line) "".

(** [while not user_input.strip(): print("Please type a word."); user_input
    = input()], on the lines still to come on standard input; [input()]
    raises [EOFError] when there are none.  The result is the outcome, the
    lines left unread and the lines printed. *)
Fixpoint while_blank (user_input : string) (stdin out : list string)
    : outcome string * list string * list string :=
  if blank user_input then
    let out := (out ++ ["Please type a word."])%list in
    match stdin with
    | [] => (EOFError, [], out)
    | line :: rest => while_blank line rest out
    end
  else (Returned user_input, stdin, out).

Definition ask_user_input (stdin out : list string)
    : outcome string * list string * list string :=
  let out := (out ++ ["Using a video model. What would you like me to find in the video?"])%list in
  match stdin with
  | [] => (EOFError, [], out)
  | user_input :: rest => while_blank user_input rest out
  end.

(** Calling a function defined without parameters: any positional argument
    is a [TypeError], raised before the body runs. *)
Definition call_without_parameters {A B} (arguments : list B)
    (body : outcome A * list string) (out : list string) : outcome A * list string :=
  match arguments with
  | [] => body
  | _ :: _ => (TypeError, out)
  end.

Definition run_load (store : caption_store) (out : list string)
    : outcome (list string) * list string :=
  match load_caption_words store out with
  | (Ok words, out') => (Returned words, out')
  | (Raise e, out') => (Raised e, out')
  end.

(** [prompt("Search the video using a word: ", completer=...)]: the message
    is shown and a line is read. *)
Fixpoint prompt_until_word (stdin out : list string) (first : bool)
    : outcome string * list string * list string :=
  let out := if first then out else (out ++ ["Please type a word."])%list in
  let out := (out ++ ["Search the video using a word: "])%list in
  match stdin with
  | [] => (EOFError, [], out)
  | input_word :: rest =>
      if blank input_word then prompt_until_word rest out false
      else (Returned input_word, rest, out)
  end.

(** [ask_user_for_search]: [load_caption_words] is defined without
    parameters and is called here with [json_file_path]. *)
Definition ask_user_for_search (OUTPUT_JSON_FILE_NAME : string) (store : caption_store)
    (stdin out : list string) : outcome string * list string * list string :=
  let json_file_path := OUTPUT_JSON_FILE_NAME in
  match call_without_parameters [json_file_path] (run_load store out) out with
  | (Returned words_list, out') => prompt_until_word stdin out' true
  | (EOFError, out') => (EOFError, stdin, out')
  | (TypeError, out') => (TypeError, stdin, out')
  | (Raised e, out') => (Raised e, stdin, out')
  end.

(** The state [search_by_image] works on: the console, the caption store
    on disk, and the files and browser of the collage. *)
Record session : Type := {
  console_in : list string;
  console_out : list string;
  store : caption_store;
  files : gmap string Collage.canvas;
  browser : list string
}.

Section WithCollaborators.

(** [json_creation] of the scene extractor, the scorer and the image
    loader. *)
Variable json_creation : session -> outcome unit * session.
Variable partial_ratio : string -> string -> Z.
Variable image_open : string -> result Collage.image.
Variable OUTPUT_JSON_FILE_NAME : string.
Variable THRESHOLD : Z.

Definition search_by_image (s : session) : outcome unit * session :=
  match json_creation s with
  | (Returned _, s1) =>
      match ask_user_for_search OUTPUT_JSON_FILE_NAME (store s1)
              (console_in s1) (console_out s1) with
      | (Returned input, stdin, out) =>
          match find_matched_captions partial_ratio THRESHOLD (store s1) input out with
          | (Ok matched_scenes_list, out) =>
              match Collage.generate_collage image_open matched_scenes_list
                      {| Collage.files := files s1; Collage.stdout := out;
                         Collage.browser := browser s1 |} with
              | (r, cw) =>
                  (match r with Ok _ => Returned tt | Raise e => Raised e end,
                   {| console_in := stdin; console_out := Collage.stdout cw;
                      store := store s1; files := Collage.files cw;
                      browser := Collage.browser cw |})
              end
          | (Raise e, out) =>
              (Raised e, {| console_in := stdin; console_out := out; store := store s1;
                            files := files s1; browser := browser s1 |})
          end
      | (EOFError, stdin, out) =>
          (EOFError, {| console_in := stdin; console_out := out; store := store s1;
                        files := files s1; browser := browser s1 |})
      | (TypeError, stdin, out) =>
          (TypeError, {| console_in := stdin; console_out := out; store := store s1;
                         files := files s1; browser := browser s1 |})
      | (Raised e, stdin, out) =>
          (Raised e, {| console_in := stdin; console_out := out; store := store s1;
                        files := files s1; browser := browser s1 |})
      end
  | (EOFError, s1) => (EOFError, s1)
  | (TypeError, s1) => (TypeError, s1)
  | (Raised e, s1) => (Raised e, s1)
  end.

End WithCollaborators.

End Prompt.

(** * Properties *)

(** ** Collage grid *)

Module CollageFacts.
Import Collage.

Lemma agree_down_sound (k : nat) :
  forall n m, agree_down k n = true ->
              n - Z.of_nat k < m <= n ->
              sqrt_binary64 m = Ok (int_sqrt m).
Proof.
  induction k as [|k IH]; intros n m Hk Hm.
  - simpl in Hm. lia.
  - cbn [agree_down] in Hk. apply andb_true_iff in Hk as [Hn Hrest].
    destruct (Z.eq_dec m n) as [->|Hne].
    + destruct (sqrt_binary64 n) as [s|e]; [|discriminate].
      apply Z.eqb_eq in Hn. now subst.
    + apply (IH (n - 1)); [exact Hrest|lia].
Qed.

(** The binary64 evaluation of [int(num_images ** 0.5)] is the integer
    square root on every count up to 65536. *)
Lemma sqrt_binary64_agrees (n : Z) :
  1 <= n <= 65536 -> sqrt_binary64 n = Ok (int_sqrt n).
Proof.
  intros Hn.
  apply (agree_down_sound (Z.to_nat 65536) 65536); [vm_compute; reflexivity|].
  rewrite Z2Nat.id by lia. lia.
Qed.

Lemma cols_pos (n : Z) : 1 <= n -> 1 <= cols n.
Proof.
  intros Hn. unfold cols, int_sqrt.
  destruct (n =? 1); [lia|].
  pose proof (Z.sqrt_nonneg n). lia.
Qed.

Lemma rows_ceil (n : Z) :
  rows n = n / cols n + (if n mod cols n =? 0 then 0 else 1).
Proof.
  unfold rows. destruct (n mod cols n =? 0); simpl; lia.
Qed.

(** C2. For every image count [n >= 1]: [cols] is 1 when [n = 1] and
    otherwise one more than the integer square root [s] of [n] (the [s]
    with [s*s <= n < (s+1)*(s+1)]); [rows] is [n / cols], plus one when
    [n mod cols] is not zero; and [rows * cols >= n].  The grids for 5, 1
    and 10 images are 3x2, 1x1 and 4x3.  Up to 65536 images the binary64
    evaluation of [int(n ** 0.5)] is that same [s]. *)
Theorem grid_covers_images :
  (forall n : Z, 1 <= n ->
     (n = 1 -> cols n = 1) /\
     (n <> 1 -> exists s, 0 <= s /\ s * s <= n < (s + 1) * (s + 1) /\ cols n = s + 1) /\
     rows n = n / cols n + (if n mod cols n =? 0 then 0 else 1) /\
     rows n * cols n >= n) /\
  (cols 5 = 3 /\ rows 5 = 2) /\
  (cols 1 = 1 /\ rows 1 = 1) /\
  (cols 10 = 4 /\ rows 10 = 3) /\
  (forall n : Z, 2 <= n <= 65536 -> sqrt_binary64 n = Ok (cols n - 1)).
Proof.
  split.
  2:{ repeat split; try reflexivity.
      intros n Hn. rewrite sqrt_binary64_agrees by lia.
      unfold cols. destruct (n =? 1) eqn:E; [apply Z.eqb_eq in E; lia|].
      f_equal. lia. }
  intros n Hn.
  pose proof (cols_pos n Hn) as Hc.
  split; [intros ->; reflexivity|].
  split.
  { intros Hne. exists (Z.sqrt n).
    pose proof (Z.sqrt_spec n ltac:(lia)) as Hs. cbv zeta in Hs.
    split; [apply Z.sqrt_nonneg|]. split; [lia|].
    unfold cols, int_sqrt. destruct (n =? 1) eqn:E; [apply Z.eqb_eq in E; lia|reflexivity]. }
  split; [apply rows_ceil|].
  rewrite rows_ceil.
  pose proof (Z.div_mod n (cols n) ltac:(lia)) as Hdm.
  pose proof (Z.mod_pos_bound n (cols n) ltac:(lia)) as Hmod.
  destruct (n mod cols n =? 0) eqn:E.
  - apply Z.eqb_eq in E. nia.
  - nia.
Qed.

Lemma grid_covers_images_witness :
  1 <= 7 /\ cols 7 = 3 /\ rows 7 * cols 7 >= 7.
Proof.
  pose proof (proj1 grid_covers_images 7 ltac:(lia)) as (_ & _ & _ & H).
  split; [lia|]. split; [reflexivity|exact H].
Defined.

(** C7. Given an empty sequence of image paths, the collage layout returns
    normally, writes no file, opens nothing, and prints the notice
    "No images found for the given search term."; this holds at the entry
    point [generate_collage] and at [create_collage] itself. *)
Theorem empty_collage_is_noop :
  forall (image_open : string -> result image) (w : world),
    (let r := generate_collage image_open [] w in
     fst r = Ok tt /\
     files (snd r) = files w /\
     browser (snd r) = browser w /\
     stdout (snd r) = (stdout w ++ ["No images found for the given search term."])%list) /\
    (forall (collage_width collage_height : Z) (output_file : string),
       let r := create_collage image_open [] collage_width collage_height output_file w in
       fst r = Ok tt /\
       files (snd r) = files w /\
       browser (snd r) = browser w /\
       stdout (snd r) = (stdout w ++ ["No images found for the given search term."])%list).
Proof.
  intros image_open w. split; [|intros cw ch out]; cbv zeta; repeat split.
Qed.

(** By contrast, one image gives a 1x1 grid, the file [collage.png] and a
    browser window. *)
Lemma single_image_collage :
  let r := generate_collage any_image ["a.jpg"] blank in
  fst r = Ok tt /\
  files (snd r) !! "collage.png"
  = Some {| canvas_width := 800; canvas_height := 600;
            pastes := [{| pasted := {| source := "a.jpg"; width := 800; height := 600 |};
                          x_at := 0; y_at := 0 |}] |} /\
  browser (snd r) = ["collage.png"] /\
  stdout (snd r) = ["Collage created and saved to collage.png"].
Proof. cbv zeta. repeat split; vm_compute; reflexivity. Qed.

End CollageFacts.

(** ** Binary64 values

    Every float that [float(s)] produces is a canonical binary64 number:
    rounding ([binary_round_aux]) yields a mantissa of the size its exponent
    calls for, both for integers scaled up by a power of ten and for
    quotients by a power of ten. *)

Module FloatFacts.
Import Float Str FloatLiteral.

Lemma digits2_size (p : positive) : digits2_pos p = Pos.size p.
Proof. induction p; simpl; congruence. Qed.

Lemma Zdigits2_log2 (m : Z) : 0 < m -> Zdigits2 m = Z.log2 m + 1.
Proof.
  destruct m as [|p|p]; try lia. intros _. simpl.
  rewrite digits2_size. destruct p; simpl; lia.
Qed.

Lemma Zdigits2_nonneg (m : Z) : 0 <= Zdigits2 m.
Proof. destruct m; simpl; lia. Qed.

Lemma Zdigits2_mono (a b : Z) : 0 <= a <= b -> Zdigits2 a <= Zdigits2 b.
Proof.
  intros [Ha Hab]. destruct (Z.eq_dec a 0) as [->|Hne].
  - apply Zdigits2_nonneg.
  - rewrite !Zdigits2_log2 by lia.
    pose proof (Z.log2_le_mono a b Hab). lia.
Qed.

Lemma fexp_mono (x y : Z) : x <= y -> fexp prec emax x <= fexp prec emax y.
Proof. unfold fexp. lia. Qed.

Lemma fexp_ge_emin (x : Z) : SpecFloat.emin prec emax <= fexp prec emax x.
Proof. unfold fexp. lia. Qed.

(** Shifting right *)
Lemma shr_1_m (mrs : shr_record) :
  0 <= shr_m mrs -> shr_m (shr_1 mrs) = shr_m mrs / 2.
Proof.
  destruct mrs as [m r s]. simpl. intros Hm.
  destruct m as [|[p|p|]|p]; try lia; simpl shr_m.
  - reflexivity.
  - rewrite Pos2Z.inj_xI. apply Z.div_unique with 1; lia.
  - rewrite Pos2Z.inj_xO. apply Z.div_unique with 0; lia.
  - reflexivity.
Qed.

Lemma iter_pos_shr_m (p : positive) :
  forall mrs, 0 <= shr_m mrs ->
    shr_m (SpecFloat.iter_pos shr_1 p mrs) = shr_m mrs / 2 ^ Zpos p.
Proof.
  induction p as [p IH|p IH|]; intros mrs Hm; cbn [SpecFloat.iter_pos].
  - assert (H1 : 0 <= shr_m (shr_1 mrs)).
    { rewrite shr_1_m by lia. apply Z.div_pos; lia. }
    assert (H2 : 0 <= shr_m (SpecFloat.iter_pos shr_1 p (shr_1 mrs))).
    { rewrite IH by lia. apply Z.div_pos; [lia|]. apply Z.pow_pos_nonneg; lia. }
    rewrite IH, IH, shr_1_m by lia.
    rewrite !Z.div_div by (try apply Z.pow_pos_nonneg; lia).
    f_equal. change (Z.pos p~1) with (2 * Z.pos p + 1).
    replace (2 * Zpos p + 1) with (1 + Zpos p + Zpos p) by lia.
    rewrite !Z.pow_add_r by lia. lia.
  - assert (H2 : 0 <= shr_m (SpecFloat.iter_pos shr_1 p mrs)).
    { rewrite IH by lia. apply Z.div_pos; [lia|]. apply Z.pow_pos_nonneg; lia. }
    rewrite IH, IH by lia.
    rewrite !Z.div_div by (try apply Z.pow_pos_nonneg; lia).
    f_equal. change (Z.pos p~0) with (2 * Z.pos p).
    replace (2 * Zpos p) with (Zpos p + Zpos p) by lia.
    rewrite !Z.pow_add_r by lia. lia.
  - rewrite shr_1_m by lia. reflexivity.
Qed.

Lemma shr_record_of_loc_m (m : Z) (l : location) : shr_m (shr_record_of_loc m l) = m.
Proof. destruct l as [|[]]; reflexivity. Qed.

Lemma shr_fexp_eq (m e : Z) (l : location) (mrs : shr_record) (e' : Z) :
  fits m e ->
  shr_fexp prec emax m e l = (mrs, e') ->
  e' = fexp prec emax (Zdigits2 m + e) /\ shr_m mrs = m / 2 ^ (e' - e).
Proof.
  intros [Hm He] H. unfold shr_fexp, shr in H.
  destruct (fexp prec emax (Zdigits2 m + e) - e) as [|p|p] eqn:Hn; try lia.
  - inversion H; subst. split; [lia|].
    rewrite shr_record_of_loc_m, Z.sub_diag, Z.pow_0_r, Z.div_1_r. reflexivity.
  - inversion H; subst. split; [lia|].
    rewrite iter_pos_shr_m by (rewrite shr_record_of_loc_m; lia).
    rewrite shr_record_of_loc_m. f_equal. f_equal. lia.
Qed.

Lemma digits_shift (m n : Z) :
  0 < m -> 0 <= n -> 0 < m / 2 ^ n -> Zdigits2 (m / 2 ^ n) = Zdigits2 m - n.
Proof.
  intros Hm Hn Hq. rewrite !Zdigits2_log2 by lia.
  rewrite <- Z.shiftr_div_pow2 by lia. rewrite Z.log2_shiftr by lia.
  assert (2 ^ n <= m).
  { destruct (Z.lt_ge_cases m (2 ^ n)) as [Hlt|]; [|lia].
    rewrite Z.div_small in Hq by lia. lia. }
  assert (n <= Z.log2 m) by (apply Z.log2_le_pow2; lia).
  lia.
Qed.

Lemma small_quotient (m n : Z) :
  0 < m -> 0 <= n -> m / 2 ^ n = 0 -> Zdigits2 m <= n.
Proof.
  intros Hm Hn Hq. rewrite Zdigits2_log2 by lia.
  assert (m < 2 ^ n).
  { destruct (Z.lt_ge_cases m (2 ^ n)) as [|Hge]; [lia|].
    assert (0 < 2 ^ n) by (apply Z.pow_pos_nonneg; lia).
    pose proof (Z.div_le_lower_bound m (2 ^ n) 1 ltac:(lia) ltac:(lia)). lia. }
  assert (Z.log2 m < n) by (apply Z.log2_lt_pow2; lia).
  lia.
Qed.

Lemma round_nearest_even_bounds (m : Z) (l : location) :
  m <= round_nearest_even m l <= m + 1.
Proof.
  unfold round_nearest_even. destruct l as [|[]]; try lia.
  destruct (Z.even m); lia.
Qed.

(** After the first shift the mantissa is canonical at its exponent, or it
    is zero and the exponent is the least one. *)
Lemma shr_fexp_canonical (m e : Z) (l : location) (mrs : shr_record) (e' : Z) :
  fits m e ->
  shr_fexp prec emax m e l = (mrs, e') ->
  0 <= shr_m mrs /\
  (0 < shr_m mrs -> fexp prec emax (Zdigits2 (shr_m mrs) + e') = e') /\
  (shr_m mrs = 0 -> fits 1 e').
Proof.
  intros Hfit H. destruct (shr_fexp_eq m e l mrs e' Hfit H) as [He' Hm'].
  destruct Hfit as [Hm He].
  assert (Hn : 0 <= e' - e) by lia.
  assert (Hpow : 0 < 2 ^ (e' - e)) by (apply Z.pow_pos_nonneg; lia).
  split; [rewrite Hm'; apply Z.div_pos; lia|].
  split.
  - intros Hpos. rewrite Hm' in Hpos |- *.
    assert (0 < m).
    { destruct (Z.eq_dec m 0) as [->|]; [rewrite Z.div_0_l in Hpos; lia|lia]. }
    rewrite digits_shift by lia.
    replace (Zdigits2 m - (e' - e) + e') with (Zdigits2 m + e) by lia.
    lia.
  - intros Hz. rewrite Hm' in Hz. split; [lia|].
    change (Zdigits2 1) with 1.
    destruct (Z.eq_dec m 0) as [->|Hne].
    + simpl Zdigits2 in *. unfold fexp, SpecFloat.emin, prec, emax in *. lia.
    + pose proof (small_quotient m (e' - e) ltac:(lia) ltac:(lia) Hz) as Hd.
      unfold fexp, SpecFloat.emin, prec, emax in *. lia.
Qed.

Theorem binary_round_aux_valid (s : bool) (mx ex : Z) (lx : location) :
  fits mx ex -> valid_binary prec emax (binary_round_aux prec emax s mx ex lx) = true.
Proof.
  intros Hfit. unfold binary_round_aux.
  destruct (shr_fexp prec emax mx ex lx) as [mrs1 e1] eqn:H1.
  destruct (shr_fexp_canonical _ _ _ _ _ Hfit H1) as (Hm1 & Hcan1 & Hz1).
  set (m2 := round_nearest_even (shr_m mrs1) (loc_of_shr_record mrs1)).
  pose proof (round_nearest_even_bounds (shr_m mrs1) (loc_of_shr_record mrs1)) as Hb.
  fold m2 in Hb.
  assert (Hfit2 : fits m2 e1).
  { split; [lia|].
    destruct (Z.eq_dec (shr_m mrs1) 0) as [Hz|Hnz].
    - destruct (Hz1 Hz) as [_ Hle].
      destruct (Z.eq_dec m2 0) as [->|].
      + simpl Zdigits2. change (Zdigits2 1) with 1 in Hle.
        unfold fexp, SpecFloat.emin, prec, emax in *. lia.
      + replace m2 with 1 by lia. exact Hle.
    - rewrite <- (Hcan1 ltac:(lia)) at 1. apply fexp_mono.
      pose proof (Zdigits2_mono (shr_m mrs1) m2 ltac:(lia)). lia. }
  destruct (shr_fexp prec emax m2 e1 loc_Exact) as [mrs3 e3] eqn:H3.
  destruct (shr_fexp_canonical _ _ _ _ _ Hfit2 H3) as (Hm3 & Hcan3 & _).
  destruct (shr_m mrs3) as [|p|p] eqn:Hp; try reflexivity.
  destruct (e3 <=? emax - prec) eqn:Hle; [|reflexivity].
  simpl. unfold bounded, canonical_mantissa.
  rewrite Hle, andb_true_r. apply Z.eqb_eq.
  apply (Hcan3 ltac:(lia)).
Qed.

Lemma iter_xO (m d : positive) : Zpos (Pos.iter xO m d) = Zpos m * 2 ^ Zpos d.
Proof.
  induction d as [|d IH] using Pos.peano_ind.
  - simpl Pos.iter. change (Z.pos m~0) with (2 * Z.pos m). lia.
  - rewrite Pos.iter_succ, Pos2Z.inj_succ, Z.pow_succ_r by lia.
    change (Z.pos (Pos.iter xO m d)~0) with (2 * Z.pos (Pos.iter xO m d)).
    rewrite IH. lia.
Qed.

Lemma binary_round_valid (s : bool) (m : positive) (e : Z) :
  valid_binary prec emax (binary_round prec emax s m e) = true.
Proof.
  unfold binary_round, shl_align.
  change (Z.pos (digits2_pos m)) with (Zdigits2 (Z.pos m)).
  destruct (fexp prec emax (Zdigits2 (Z.pos m) + e) - e) as [|d|d] eqn:Hd;
    apply binary_round_aux_valid; split; try lia.
  rewrite iter_xO.
  assert (0 < Z.pos m * 2 ^ Z.pos d)
    by (apply Z.mul_pos_pos; [lia|apply Z.pow_pos_nonneg; lia]).
  rewrite (Zdigits2_log2 (Z.pos m * 2 ^ Z.pos d)) by lia.
  rewrite Z.log2_mul_pow2 by lia.
  pose proof (Zdigits2_log2 (Z.pos m) ltac:(lia)) as Hdm.
  set (F := fexp prec emax (Zdigits2 (Z.pos m) + e)) in *.
  replace (Z.pos d + Z.log2 (Z.pos m) + 1 + F) with (Zdigits2 (Z.pos m) + e) by lia.
  fold F. lia.
Qed.

Lemma binary_normalize_valid (m e : Z) (sz : bool) :
  valid_binary prec emax (binary_normalize prec emax m e sz) = true.
Proof. destruct m; [reflexivity|apply binary_round_valid..]. Qed.

Lemma digits_bounds (m : Z) :
  0 < m -> 2 ^ (Zdigits2 m - 1) <= m < 2 ^ Zdigits2 m.
Proof.
  intros Hm. rewrite Zdigits2_log2 by lia.
  pose proof (Z.log2_spec m Hm) as H.
  replace (Z.log2 m + 1 - 1) with (Z.log2 m) by lia.
  replace (Z.log2 m + 1) with (Z.succ (Z.log2 m)) by lia. exact H.
Qed.

Lemma div_core_fits (m1 m2 : Z) :
  0 < m1 -> 0 < m2 ->
  let '(q, e', _) := SFdiv_core_binary prec emax m1 0 m2 0 in fits q e'.
Proof.
  intros H1 H2. unfold SFdiv_core_binary.
  set (d1 := Zdigits2 m1). set (d2 := Zdigits2 m2).
  set (e' := Z.min (fexp prec emax (d1 + 0 - (d2 + 0))) (0 - 0)).
  set (s := 0 - 0 - e').
  assert (Hs : 0 <= s) by (unfold s, e'; lia).
  set (m' := match s with Z.pos _ => Z.shiftl m1 s | 0 => m1 | Z.neg _ => 0 end).
  assert (Hm' : m' = m1 * 2 ^ s).
  { unfold m'. destruct s as [|p|p] eqn:E; try lia.
    apply Z.shiftl_mul_pow2. lia. }
  clearbody m'. subst m'.
  pose proof (Z.div_eucl_eq (m1 * 2 ^ s) m2 ltac:(lia)) as Heq.
  pose proof (Z.mod_pos_bound (m1 * 2 ^ s) m2 H2) as Hmod.
  unfold Z.modulo in Hmod.
  destruct (Z.div_eucl (m1 * 2 ^ s) m2) as [q r] eqn:Hqr.
  assert (Hpow : 0 < 2 ^ s) by (apply Z.pow_pos_nonneg; lia).
  assert (Hq : 0 <= q) by nia.
  split; [exact Hq|].
  pose proof (digits_bounds m1 H1) as [Hlo1 _]. fold d1 in Hlo1.
  pose proof (digits_bounds m2 H2) as [_ Hhi2]. fold d2 in Hhi2.
  assert (Hd1 : 1 <= d1) by (unfold d1; rewrite Zdigits2_log2 by lia; pose proof (Z.log2_nonneg m1); lia).
  assert (Hd2 : 1 <= d2) by (unfold d2; rewrite Zdigits2_log2 by lia; pose proof (Z.log2_nonneg m2); lia).
  destruct (Z.eq_dec q 0) as [->|Hq0].
  - (* the quotient vanished: the exponent is already the least one *)
    assert (m1 * 2 ^ s < m2) by lia.
    assert (2 ^ (d1 - 1 + s) < 2 ^ d2).
    { rewrite Z.pow_add_r by lia. nia. }
    assert (d1 - 1 + s < d2) by (apply (Z.pow_lt_mono_r_iff 2); lia).
    simpl Zdigits2. unfold e', s, fexp, SpecFloat.emin, prec, emax in *. lia.
  - assert (Hlog : d1 - d2 + s - 1 <= Z.log2 q).
    { destruct (Z.le_gt_cases (d1 - d2 + s - 1) 0) as [Hle|Hgt].
      - pose proof (Z.log2_nonneg q). lia.
      - apply Z.log2_le_pow2; [lia|].
        assert (2 ^ (d1 - d2 + s - 1) * m2 <= m1 * 2 ^ s).
        { assert (2 ^ (d1 - d2 + s - 1) * 2 ^ d2 = 2 ^ (d1 - 1) * 2 ^ s).
          { rewrite <- !Z.pow_add_r by lia. f_equal. lia. }
          assert (0 < 2 ^ (d1 - d2 + s - 1)) by (apply Z.pow_pos_nonneg; lia).
          nia. }
        nia. }
    rewrite Zdigits2_log2 by lia.
    etransitivity; [|apply fexp_mono with (x := d1 - d2); unfold s in *; lia].
    unfold e', fexp. lia.
Qed.

Lemma of_decimal_valid (neg : bool) (m e10 : Z) :
  valid_binary prec emax (of_decimal neg m e10) = true.
Proof.
  unfold of_decimal. destruct m as [|p|p]; try reflexivity.
  destruct e10 as [|k|k]; try apply binary_normalize_valid.
  pose proof (div_core_fits (Z.pos p) (Z.pow_pos 10 k) ltac:(lia)
                ltac:(rewrite Z.pow_pos_fold; apply Z.pow_pos_nonneg; lia)) as H.
  destruct (SFdiv_core_binary prec emax (Z.pos p) 0 (Z.pow_pos 10 k) 0) as [[q e] l].
  apply binary_round_aux_valid. exact H.
Qed.

Lemma py_float_valid (s : string) (v : float) :
  py_float s = Ok v -> valid_binary prec emax v = true.
Proof.
  unfold py_float.
  destruct (drop_underscores Ascii.zero (transform s)) as [s1|]; [|discriminate].
  set (body := skip_trailing (skip_leading s1)).
  destruct (number body) as [x|] eqn:Hnum.
  - intros H. inversion H; subst. unfold number in Hnum.
    destruct (sign body) as [neg s0].
    destruct (digits s0 0 0) as [[ip ni] s2].
    destruct (match s2 with
              | String "." s1' => digits s1' ip 0
              | _ => (ip, 0, s2)
              end) as [[m nf] s3].
    destruct (Z.ltb 0 (ni + nf)); [|discriminate].
    destruct (exponent s3) as [e|]; [|discriminate].
    inversion Hnum. apply of_decimal_valid.
  - unfold inf_or_nan. destruct (sign body) as [neg s0].
    destruct (_ || _)%bool; [intros H; inversion H; reflexivity|].
    destruct (String.eqb _ _); intros H; inversion H. reflexivity.
Qed.

(** [float] raises nothing but [ValueError]. *)
Lemma py_float_raises_value_error (s : string) (e : exn) :
  py_float s = Raise e -> e = ValueError.
Proof.
  unfold py_float.
  destruct (drop_underscores Ascii.zero (transform s)) as [s1|];
    [|intros H; inversion H; reflexivity].
  destruct (number _); [discriminate|].
  destruct (inf_or_nan _); [discriminate|].
  intros H. inversion H. reflexivity.
Qed.

End FloatFacts.

(** ** Time codes *)

Module TimeCodeFacts.
Import Float Str FloatLiteral TimeCode.

Lemma Forall2_rev {A B} (P : A -> B -> Prop) (l : list A) (k : list B) :
  Forall2 P l k -> Forall2 P (rev l) (rev k).
Proof.
  induction 1 as [|x y l k Hxy _ IH]; simpl; [constructor|].
  apply List.Forall2_app; [exact IH|]. constructor; [exact Hxy|constructor].
Qed.

Lemma sum_by_ext (f g : nat -> result float) (positions : list nat) :
  (forall i, In i positions -> f i = g i) ->
  forall total, sum_by f total positions = sum_by g total positions.
Proof.
  induction positions as [|i rest IH]; intros Hfg total; [reflexivity|].
  simpl. rewrite (Hfg i) by (left; reflexivity).
  destruct (g i) as [t|e]; simpl; [|reflexivity].
  apply IH. intros j Hj. apply Hfg. right. exact Hj.
Qed.

(** The generator of the source, read against the parsed fields [ws] (in
    reversed order, as [enumerate] meets them), starting at index [k]. *)
Lemma sum_terms_indexed (fields : list string) (ws : list float) :
  Forall2 (fun x v => py_float x = Ok v) fields ws ->
  forall (k : nat) (total : float),
    sum_terms total (combine (seq k (length fields)) fields)
    = sum_by (fun i => mul_int (nth (i - k) ws zero) (60 ^ Z.of_nat i))
             total (seq k (length ws)).
Proof.
  induction 1 as [|x v fields ws Hxv _ IH]; intros k total; [reflexivity|].
  simpl. rewrite Hxv. simpl. rewrite Nat.sub_diag.
  destruct (mul_int v (60 ^ Z.of_nat k)) as [t|e]; simpl; [|reflexivity].
  rewrite IH. apply sum_by_ext. intros i Hi.
  apply in_seq in Hi.
  replace (i - k)%nat with (S (i - S k)) by lia. reflexivity.
Qed.

Lemma parse_is_positional_sum (time_point : string) (vs : list float) :
  Forall2 (fun x v => py_float x = Ok v) (split ":" time_point) vs ->
  parse_time_point time_point = positional_sum vs.
Proof.
  intros Hvs. unfold parse_time_point, positional_sum, enumerate.
  pose proof (Forall2_rev _ _ _ Hvs) as Hrev.
  rewrite (sum_terms_indexed _ _ Hrev). rewrite length_rev.
  apply sum_by_ext. intros i Hi. apply in_seq in Hi.
  unfold weighted_field. rewrite Nat.sub_0_r.
  rewrite rev_nth by lia.
  replace (length vs - S i)%nat with (length vs - 1 - i)%nat by lia.
  reflexivity.
Qed.

Lemma weights_in_range_174 : weights_in_range 174 = true.
Proof. vm_compute. reflexivity. Qed.

Lemma weights_in_range_sound (n i : nat) :
  weights_in_range n = true -> (i < n)%nat ->
  exists w, of_int (60 ^ Z.of_nat i) = Ok w.
Proof.
  unfold weights_in_range. rewrite forallb_forall. intros H Hi.
  specialize (H i). rewrite in_seq in H.
  destruct (of_int (60 ^ Z.of_nat i)) as [w|e]; [eauto|].
  discriminate H. lia.
Qed.

(** [60 ** 174] is the first weight beyond the binary64 range. *)
Lemma weight_174_overflows : of_int (60 ^ 174) = Raise OverflowError.
Proof. vm_compute. reflexivity. Qed.

Lemma weight_ok (i : nat) :
  (i < 174)%nat -> exists w, of_int (60 ^ Z.of_nat i) = Ok w.
Proof. apply weights_in_range_sound. exact weights_in_range_174. Qed.

Lemma sum_by_returns (f : nat -> result float) (positions : list nat) :
  (forall i, In i positions -> exists t, f i = Ok t) ->
  forall total, exists r, sum_by f total positions = Ok r.
Proof.
  induction positions as [|i rest IH]; intros Hf total; simpl.
  - exists total. reflexivity.
  - destruct (Hf i) as [t Ht]; [left; reflexivity|]. rewrite Ht. simpl.
    apply IH. intros j Hj. apply Hf. right. exact Hj.
Qed.

Lemma positional_sum_returns (vs : list float) :
  (length vs <= 174)%nat -> exists t, positional_sum vs = Ok t.
Proof.
  intros Hlen. unfold positional_sum. apply sum_by_returns.
  intros i Hi. apply in_seq in Hi. unfold weighted_field, mul_int.
  destruct (weight_ok i) as [w Hw]; [lia|]. rewrite Hw. simpl. eauto.
Qed.

Lemma mul_one (v : float) :
  valid_binary prec emax v = true -> mul v one = v.
Proof.
  destruct v as [s|s| |s m e]; intros Hv; try reflexivity.
  - simpl. destruct s; reflexivity.
  - simpl. destruct s; reflexivity.
  - simpl in Hv. unfold bounded, canonical_mantissa in Hv.
    apply andb_true_iff in Hv as [Hc Hb].
    apply Z.eqb_eq in Hc. apply Z.leb_le in Hb.
    unfold mul, one, SFmul. rewrite xorb_false_r.
    rewrite Pos.mul_comm.
    unfold binary_round_aux, shr_fexp.
    cbv beta iota fix delta [Pos.mul Zdigits2 digits2_pos].
    fold digits2_pos.
    set (d := digits2_pos m) in *.
    match goal with |- context [fexp prec emax ?x - (e + -52)] =>
      replace (fexp prec emax x - (e + -52)) with 52
    end.
    2:{ unfold fexp, SpecFloat.emin, prec, emax in *. lia. }
    cbv beta iota zeta fix delta [shr shr_record_of_loc SpecFloat.iter_pos shr_1 orb].
    cbv beta iota zeta delta [shr_m loc_of_shr_record round_nearest_even shr_record_of_loc Zdigits2].
    replace (e + -52 + 52) with e by lia.
    fold d. rewrite Hc, Z.sub_diag. cbv beta iota delta [shr shr_m].
    apply Z.leb_le in Hb. rewrite Hb. reflexivity.
Qed.

Lemma add_zero (v : float) :
  add zero v = match v with S754_zero true => S754_zero false | _ => v end.
Proof. destruct v as [[]|[]| |s m e]; reflexivity. Qed.

Lemma split_no_colon (s : string) :
  has_colon s = false -> split ":" s = [s].
Proof.
  unfold has_colon. induction s as [|c s IH]; [reflexivity|].
  cbn [list_ascii_of_string existsb split].
  intros H. apply orb_false_iff in H as [Hc Hs].
  rewrite Ascii.eqb_sym in Hc. rewrite Hc, (IH Hs). reflexivity.
Qed.

Lemma single_field (s : string) (v : float) :
  has_colon s = false -> py_float s = Ok v ->
  parse_time_point s = Ok (add zero (mul v one)).
Proof.
  intros Hs Hv. unfold parse_time_point. rewrite (split_no_colon s Hs).
  simpl. rewrite Hv. reflexivity.
Qed.

(** The parser raises nothing but [ValueError] (from [float]) and
    [OverflowError] (from the conversion of a weight). *)
Lemma sum_terms_raises (g : list (nat * string)) :
  forall (total : float) (e : exn),
    sum_terms total g = Raise e -> e = ValueError \/ e = OverflowError.
Proof.
  induction g as [|[i x] g IH]; intros total e H; cbn [sum_terms term] in H;
    [discriminate|].
  destruct (py_float x) as [v|e'] eqn:Hx; cbn [rbind] in H.
  - unfold mul_int, of_int in H.
    destruct (binary_normalize prec emax (60 ^ Z.of_nat i) 0 false); cbn [rbind] in H;
      try (exact (IH _ _ H)).
    inversion H. right. reflexivity.
  - inversion H; subst. left. exact (FloatFacts.py_float_raises_value_error x e Hx).
Qed.

Lemma parse_raises (tp : string) (e : exn) :
  parse_time_point tp = Raise e -> e = ValueError \/ e = OverflowError.
Proof. apply sum_terms_raises. Qed.

(** Once the generator gets to position 174 it cannot go on: either a field
    before it, or the field there, is rejected by [float], or the weight
    [60 ** 174] cannot be converted. *)
Lemma sum_terms_past_range (fields : list string) :
  forall (k : nat) (total : float),
    (k <= 174 < k + length fields)%nat ->
    exists e,
      sum_terms total (combine (seq k (length fields)) fields) = Raise e /\
      (Forall (fun x => exists v, py_float x = Ok v) fields -> e = OverflowError).
Proof.
  induction fields as [|x fields IH]; intros k total Hk; [cbn in Hk; lia|].
  cbn [length seq combine sum_terms term].
  destruct (py_float x) as [v|e] eqn:Hx; cbn [rbind].
  - destruct (Nat.eq_dec k 174%nat) as [->|Hne].
    + unfold mul_int. change (Z.of_nat 174%nat) with 174.
      rewrite weight_174_overflows. cbn [rbind].
      exists OverflowError. split; [reflexivity|]. intros _. reflexivity.
    + unfold mul_int. destruct (weight_ok k) as [w Hw]; [lia|].
      rewrite Hw. cbn [rbind].
      destruct (IH (S k) (add total (mul v w))) as (e & He & Hall);
        [cbn [length] in Hk; lia|].
      exists e. split; [exact He|].
      intros Hf. apply Hall. inversion Hf; assumption.
  - exists e. split; [reflexivity|].
    intros Hf. inversion Hf as [|? ? [v Hv] _]; subst. congruence.
Qed.

Lemma parse_past_range (time_point : string) :
  (174 < length (split ":" time_point))%nat ->
  exists e,
    parse_time_point time_point = Raise e /\
    (e = ValueError \/ e = OverflowError) /\
    (Forall (fun x => exists v, py_float x = Ok v) (split ":" time_point) ->
     e = OverflowError).
Proof.
  intros Hlen. unfold parse_time_point, enumerate.
  destruct (sum_terms_past_range (rev (split ":" time_point)) 0 zero) as (e & He & Hall);
    [rewrite length_rev; lia|].
  exists e. split; [exact He|]. split.
  - exact (sum_terms_raises _ _ _ He).
  - intros Hf. apply Hall. apply List.Forall_rev. exact Hf.
Qed.

(** C1, as the code has it.  For a time code whose ':'-separated fields are
    all numeric ([float] accepts each, giving [vs]), parsing gives the sum
    over the positions [i] counted from the right of [vs[len-1-i] * 60**i],
    in Python's float arithmetic, and it returns that float when there are
    at most 174 fields.  With more than 174 fields nothing is returned:
    [60 ** 174] is too large to convert for the product, so the parser
    raises [OverflowError] (or [ValueError], when [float] rejects a field
    first).  Three fields [h:m:s] give [s*1 + m*60 + h*3600].
    ["01:02:03.5"] parses to 3723.5 (the binary64 number 7447 * 2^-1).  A
    single field without ':' is the seconds themselves: the result is the
    float [v] of that field ([0 + v*1.0] is [v]; only [-0.0] comes out as
    [0.0]). *)
Theorem time_code_positional_value :
  (forall (time_point : string) (vs : list float),
     Forall2 (fun x v => py_float x = Ok v) (split ":" time_point) vs ->
     parse_time_point time_point = positional_sum vs /\
     ((length vs <= 174)%nat -> exists t, parse_time_point time_point = Ok t) /\
     ((174 < length vs)%nat -> parse_time_point time_point = Raise OverflowError)) /\
  (forall time_point : string,
     (174 < length (split ":" time_point))%nat ->
     exists e,
       parse_time_point time_point = Raise e /\
       (e = ValueError \/ e = OverflowError)) /\
  (forall h m s : float,
     positional_sum [h; m; s]
     = Ok (add (add (add zero (mul s one))
                    (mul m (S754_finite false 8444249301319680 (-47))))
               (mul h (S754_finite false 7916483719987200 (-41))))) /\
  (parse_time_point "01:02:03.5" = Ok (S754_finite false 8188063092047872 (-41)) /\
   py_float "3723.5" = Ok (S754_finite false 8188063092047872 (-41)) /\
   8188063092047872 = 7447 * 2 ^ 40) /\
  (forall (s : string) (v : float),
     has_colon s = false -> py_float s = Ok v ->
     parse_time_point s
     = Ok (match v with S754_zero true => S754_zero false | _ => v end)).
Proof.
  split; [|split; [|split; [|split]]].
  - intros time_point vs Hvs.
    pose proof (parse_is_positional_sum _ _ Hvs) as Hsum.
    split; [exact Hsum|]. split.
    + intros Hlen. rewrite Hsum. apply positional_sum_returns. exact Hlen.
    + intros Hlen.
      destruct (parse_past_range time_point) as (e & He & _ & Hall).
      { rewrite (Forall2_length _ _ _ Hvs). exact Hlen. }
      rewrite He, Hall; [reflexivity|].
      clear - Hvs. induction Hvs; constructor; eauto.
  - intros time_point Hlen.
    destruct (parse_past_range time_point Hlen) as (e & He & Hkind & _). eauto.
  - intros h m s. reflexivity.
  - repeat split; vm_compute; reflexivity.
  - intros s v Hs Hv.
    rewrite (single_field s v Hs Hv).
    rewrite (mul_one v (FloatFacts.py_float_valid s v Hv)), add_zero.
    reflexivity.
Qed.

Lemma time_code_positional_value_witness :
  parse_time_point "00:10.105"
  = positional_sum [S754_zero false; S754_finite false 5688609279322358 (-49)] /\
  parse_time_point "42.25" = Ok (S754_finite false 5946158883012608 (-47)).
Proof.
  split.
  - apply (proj1 time_code_positional_value "00:10.105").
    constructor; [reflexivity|]. constructor; [vm_compute; reflexivity|]. constructor.
  - apply (proj2 (proj2 (proj2 (proj2 time_code_positional_value))) "42.25"
             (S754_finite false 5946158883012608 (-47))).
    + reflexivity.
    + vm_compute. reflexivity.
Defined.

(** The time code ["0:0:...:0"] of 175 fields: every field is numeric, and
    the parser raises [OverflowError] where the sum of the weighted fields
    would be 0.0; with 174 fields it returns 0.0. *)
Lemma overlong_time_code_raises :
  length (split ":" (zero_fields 175)) = 175%nat /\
  Forall (fun x => py_float x = Ok zero) (split ":" (zero_fields 175)) /\
  parse_time_point (zero_fields 175) = Raise OverflowError /\
  parse_time_point (zero_fields 174) = Ok zero.
Proof.
  assert (Hsplit : split ":" (zero_fields 175) = repeat "0" 175)
    by (vm_compute; reflexivity).
  rewrite Hsplit. split; [apply repeat_length|]. split.
  - apply List.Forall_forall. intros x Hx.
    apply List.repeat_spec in Hx. subst x. vm_compute. reflexivity.
  - split; vm_compute; reflexivity.
Qed.

End TimeCodeFacts.

(** ** Frame extraction *)

Module ExtractorFacts.
Import Float Str FloatLiteral TimeCode Extractor.

(** *** The three ways one iteration ends normally *)


Lemma loop_body_unread video dir files tp w t n :
  parse_time_point tp = Ok t ->
  to_int (mul t (CAP_PROP_FPS video)) = Ok n ->
  seek_read video (seeks w) n = None ->
  loop_body video dir files tp w
  = (Ok files,
     snd (print ("Warning: Could not extract frame at " +:+ tp +:+ ".")
            (snd (set_and_read video n w)))).
Proof.
  intros Ht Hn Hr. unfold loop_body, bind, lift. rewrite Ht, Hn.
  cbn [set_and_read]. rewrite Hr. reflexivity.
Qed.

Lemma loop_body_saved video dir files tp w t n f k :
  parse_time_point tp = Ok t ->
  to_int (mul t (CAP_PROP_FPS video)) = Ok n ->
  seek_read video (seeks w) n = Some f ->
  to_int t = Ok k ->
  loop_body video dir files tp w
  = (Ok (files ++ [path_join dir (frame_name k)])%list,
     snd (imwrite (path_join dir (frame_name k)) f (snd (set_and_read video n w)))).
Proof.
  intros Ht Hn Hr Hk. unfold loop_body, bind, lift. rewrite Ht, Hn.
  cbn [set_and_read]. rewrite Hr, Hk. reflexivity.
Qed.

(** A finite product has a finite first factor: when the frame index can be
    computed, so can the whole seconds for the file name. *)
Lemma to_int_factor (t fps : float) (n : Z) :
  to_int (mul t fps) = Ok n -> exists k, to_int t = Ok k.
Proof.
  destruct t as [s|s| |s m e]; simpl; eauto.
  destruct fps; simpl; discriminate.
Qed.

Lemma to_int_raises (x : float) (e : exn) :
  to_int x = Raise e -> e = ValueError \/ e = OverflowError.
Proof. destruct x; cbn; intros H; inversion H; auto. Qed.

(** [int] of a finite float drops the fraction: it is the quotient rounded
    toward zero of the signed mantissa by the power of two. *)
Lemma to_int_truncates (s : bool) (m : positive) (e : Z) :
  to_int (S754_finite s m e)
  = Ok (if e <? 0 then Z.quot (cond_Zopp s (Zpos m)) (2 ^ (- e))
        else cond_Zopp s (Zpos m) * 2 ^ e).
Proof.
  unfold to_int. f_equal.
  destruct e as [|k|k]; simpl Z.ltb; cbv iota.
  - rewrite Z.shiftl_0_r. rewrite Z.mul_1_r. reflexivity.
  - rewrite Z.shiftl_mul_pow2 by lia. unfold cond_Zopp. destruct s; [|reflexivity].
    rewrite Z.mul_opp_l. reflexivity.
  - rewrite Z.shiftr_div_pow2 by lia.
    change (- Z.neg k) with (Z.pos k).
    assert (0 < 2 ^ Z.pos k) by (apply Z.pow_pos_nonneg; lia).
    unfold cond_Zopp. destruct s.
    + rewrite Z.quot_opp_l by lia.
      rewrite Z.quot_div_nonneg by lia. reflexivity.
    + rewrite Z.quot_div_nonneg by lia. reflexivity.
Qed.

(** C3, as the code has it.  For every parsed time offset [t] the frame index
    is [int(t * frames_per_second)]: the product with its fraction dropped
    (rounded toward zero), not rounded to the nearest integer.  When the
    index can be computed, exactly one seek-and-read is issued, at that
    index; when it cannot, the exception leaves the loop body. *)
Theorem frame_index_truncates :
  (forall video dir files tp t w,
     parse_time_point tp = Ok t ->
     match to_int (mul t (CAP_PROP_FPS video)) with
     | Ok frame_number =>
         seeks (snd (loop_body video dir files tp w)) = frame_number :: seeks w
     | Raise e => loop_body video dir files tp w = (Raise e, w)
     end) /\
  (forall (s : bool) (m : positive) (e : Z),
     to_int (S754_finite s m e)
     = Ok (if e <? 0 then Z.quot (cond_Zopp s (Zpos m)) (2 ^ (- e))
           else cond_Zopp s (Zpos m) * 2 ^ e)).
Proof.
  split; [|exact to_int_truncates].
  intros video dir files tp t w Ht.
  destruct (to_int (mul t (CAP_PROP_FPS video))) as [n|e] eqn:Hn.
  - destruct (to_int_factor _ _ _ Hn) as [k Hk].
    destruct (seek_read video (seeks w) n) as [f|] eqn:Hr.
    + rewrite (loop_body_saved _ _ _ _ _ _ _ _ _ Ht Hn Hr Hk). reflexivity.
    + rewrite (loop_body_unread _ _ _ _ _ _ _ Ht Hn Hr). reflexivity.
  - unfold loop_body, bind, lift. rewrite Ht, Hn. reflexivity.
Qed.

Lemma frame_index_truncates_witness :
  seeks (snd (loop_body sample_video "extracted_images" [] "00:01.99" empty_world))
  = [59].
Proof.
  pose proof (proj1 frame_index_truncates sample_video "extracted_images" []
                "00:01.99" (S754_finite false 8962163258467287 (-52)) empty_world
                ltac:(vm_compute; reflexivity)) as H.
  exact H.
Defined.

(** At 30 frames per second the time point ["00:00.03"] is 0.03 s, and
    0.03 * 30.0 is just below 0.9: the extractor seeks frame 0, while
    rounding to the nearest integer gives 1. *)
Lemma frame_index_not_rounded :
  exists (t : float) (n r : Z),
    parse_time_point "00:00.03" = Ok t /\
    seeks (snd (loop_body sample_video "extracted_images" [] "00:00.03" empty_world))
    = [n] /\
    round (mul t (CAP_PROP_FPS sample_video)) = Ok r /\
    n <> r.
Proof.
  exists (S754_finite false 8646911284551352 (-58)), 0, 1.
  repeat split; try (vm_compute; reflexivity). lia.
Qed.

(** C4, as the code has it.  After processing all offsets the function
    returns the output directory alone, [EXTRACTED_IMAGES_DIR]; the list of
    extracted file paths is built but is not part of what the caller
    receives.  An exception is passed on unchanged. *)
Theorem returns_output_dir_only :
  forall h time_points video_path w,
    match extract_frames_locals h time_points video_path w with
    | (Ok (output_dir, extracted_files), w') =>
        extract_frames_from_video h time_points video_path w = (Ok output_dir, w') /\
        output_dir = EXTRACTED_IMAGES_DIR h
    | (Raise e, w') =>
        extract_frames_from_video h time_points video_path w = (Raise e, w')
    end.
Proof.
  intros h tps path w.
  assert (extract_frames_from_video h tps path w
          = match extract_frames_locals h tps path w with
            | (Ok locals, w') => (Ok (fst locals), w')
            | (Raise e, w') => (Raise e, w')
            end) as -> by reflexivity.
  destruct (extract_frames_locals h tps path w) as [[[dir files]|e] w'] eqn:E;
    [|reflexivity].
  split; [reflexivity|].
  unfold extract_frames_locals in E.
  destruct (negb (path_exists h path)); [discriminate|].
  unfold bind in E.
  destruct (makedirs h (EXTRACTED_IMAGES_DIR h) w) as [[[]|e] w_d]; [|discriminate].
  cbn [set_handle] in E.
  destruct (negb (isOpened (VideoCapture h path))); [discriminate|].
  destruct (for_loop _ _ _ _ _) as [[fl|e] w1]; [|discriminate].
  cbn in E. inversion E. reflexivity.
Qed.

(** Two calls that extract different lists of files return the same value. *)
Lemma return_value_omits_extracted_files :
  fst (extract_frames_locals sample_host ["00:01"] "trailer.mp4" empty_world)
  = Ok ("extracted_images", ["extracted_images/frame_1s.jpg"]) /\
  fst (extract_frames_locals sample_host [] "trailer.mp4" empty_world)
  = Ok ("extracted_images", []) /\
  fst (extract_frames_from_video sample_host ["00:01"] "trailer.mp4" empty_world)
  = fst (extract_frames_from_video sample_host [] "trailer.mp4" empty_world).
Proof. repeat split; vm_compute; reflexivity. Qed.

(** *** The loop as a whole *)

Lemma for_loop_cons video dir files tp rest w :
  for_loop video dir files (tp :: rest) w
  = match loop_body video dir files tp w with
    | (Ok files', w') => for_loop video dir files' rest w'
    | (Raise e, w') => (Raise e, w')
    end.
Proof. reflexivity. Qed.

Lemma for_loop_app video dir l1 l2 :
  forall files w,
    for_loop video dir files (l1 ++ l2) w
    = match for_loop video dir files l1 w with
      | (Ok files', w') => for_loop video dir files' l2 w'
      | (Raise e, w') => (Raise e, w')
      end.
Proof.
  induction l1 as [|tp l1 IH]; intros files w; [reflexivity|].
  rewrite <- app_comm_cons, !for_loop_cons.
  destruct (loop_body video dir files tp w) as [[files'|e] w']; [apply IH|reflexivity].
Qed.

(** Whatever one iteration does, it leaves the video handle as it was. *)
Lemma loop_body_handle video dir files tp w :
  handle_open (snd (loop_body video dir files tp w)) = handle_open w.
Proof.
  unfold loop_body, bind, lift.
  destruct (parse_time_point tp) as [t|[]]; try reflexivity.
  destruct (to_int (mul t (CAP_PROP_FPS video))) as [n|e]; [|reflexivity].
  cbn [set_and_read].
  destruct (seek_read video (seeks w) n) as [f|]; [|reflexivity].
  destruct (to_int t) as [k|e]; reflexivity.
Qed.

Lemma for_loop_handle video dir tps :
  forall files w,
    handle_open (snd (for_loop video dir files tps w)) = handle_open w.
Proof.
  induction tps as [|tp rest IH]; intros files w; [reflexivity|].
  rewrite for_loop_cons.
  pose proof (loop_body_handle video dir files tp w) as Hb.
  destruct (loop_body video dir files tp w) as [[files'|e] w']; simpl in Hb.
  - rewrite IH. exact Hb.
  - exact Hb.
Qed.

(** An iteration only ever appends to [extracted_files]. *)
Lemma loop_body_extends video dir files tp w files' w' :
  loop_body video dir files tp w = (Ok files', w') ->
  exists ext, files' = (files ++ ext)%list.
Proof.
  unfold loop_body, bind, lift.
  destruct (parse_time_point tp) as [t|[]]; try discriminate.
  - destruct (to_int (mul t (CAP_PROP_FPS video))) as [n|e]; [|discriminate].
    cbn [set_and_read].
    destruct (seek_read video (seeks w) n) as [f|].
    + destruct (to_int t) as [k|e]; [|discriminate].
      intros H. inversion H. eauto.
    + intros H. inversion H. exists []. rewrite app_nil_r. reflexivity.
  - intros H. inversion H. exists []. rewrite app_nil_r. reflexivity.
Qed.

Lemma for_loop_extends video dir tps :
  forall files w files' w',
    for_loop video dir files tps w = (Ok files', w') ->
    exists ext, files' = (files ++ ext)%list.
Proof.
  induction tps as [|tp rest IH]; intros files w files' w' H.
  - inversion H. exists []. rewrite app_nil_r. reflexivity.
  - rewrite for_loop_cons in H.
    destruct (loop_body video dir files tp w) as [[files1|e] w1] eqn:Hb; [|discriminate].
    destruct (loop_body_extends _ _ _ _ _ _ _ Hb) as [ext1 ->].
    destruct (IH _ _ _ _ H) as [ext2 ->].
    exists (ext1 ++ ext2)%list. rewrite app_assoc. reflexivity.
Qed.






(** The loop raises nothing but what [int] and the parser raise. *)
Lemma for_loop_raises video dir tps :
  forall files w e w',
    for_loop video dir files tps w = (Raise e, w') ->
    e = ValueError \/ e = OverflowError.
Proof.
  induction tps as [|tp rest IH]; intros files w e w' H; [discriminate|].
  rewrite for_loop_cons in H.
  destruct (loop_body video dir files tp w) as [[files1|e1] w1] eqn:Hb.
  - exact (IH _ _ _ _ H).
  - inversion H; subst. clear H. unfold loop_body, bind, lift in Hb.
    destruct (parse_time_point tp) as [t|e0] eqn:Hp.
    + destruct (to_int (mul t (CAP_PROP_FPS video))) as [n|e0] eqn:Hn.
      * cbn [set_and_read] in Hb.
        destruct (seek_read video (seeks w) n); [|discriminate].
        destruct (to_int t) as [k|e0] eqn:Hk; [discriminate|].
        inversion Hb; subst. exact (to_int_raises _ _ Hk).
      * inversion Hb; subst. exact (to_int_raises _ _ Hn).
    + destruct (TimeCodeFacts.parse_raises tp e0 Hp) as [He|He]; subst e0;
        inversion Hb; subst; auto.
Qed.

(** *** The call as a whole *)

(** Making the output directory either succeeds, adding it to the
    directories, or raises and changes nothing. *)
Lemma makedirs_cases h d w :
  makedirs h d w = (Ok tt, with_dir d w) \/ exists e, makedirs h d w = (Raise e, w).
Proof.
  unfold makedirs. destruct (String.eqb d ""); [right; eauto|].
  destruct (bool_decide (d ∈ dirs w)); [left; reflexivity|].
  destruct (fs w !! d); [right; eauto|].
  destruct (mkdir_error h d); [right; eauto|left; reflexivity].
Qed.

Lemma makedirs_ok h d w :
  fst (makedirs h d w) = Ok tt -> makedirs h d w = (Ok tt, with_dir d w).
Proof.
  destruct (makedirs_cases h d w) as [H|[e H]]; rewrite H; [reflexivity|discriminate].
Qed.

Lemma makedirs_raises h d w e :
  fst (makedirs h d w) = Raise e -> makedirs h d w = (Raise e, w).
Proof.
  destruct (makedirs_cases h d w) as [H|[e' H]]; rewrite H; cbn [fst]; [discriminate|].
  intros E. inversion E. reflexivity.
Qed.

Lemma extract_frames_locals_eq h tps path w :
  extract_frames_locals h tps path w
  = if negb (path_exists h path) then (Raise FileNotFoundError, w)
    else
      match makedirs h (EXTRACTED_IMAGES_DIR h) w with
      | (Raise e, w_d) => (Raise e, w_d)
      | (Ok _, w_d) =>
          let video := VideoCapture h path in
          let w0 := snd (set_handle (isOpened video) w_d) in
          if negb (isOpened video) then (Raise ValueError, w0)
          else match for_loop video (EXTRACTED_IMAGES_DIR h) [] tps w0 with
               | (Ok files, w1) =>
                   (Ok (EXTRACTED_IMAGES_DIR h, files), snd (set_handle false w1))
               | (Raise e, w1) => (Raise e, w1)
               end
      end.
Proof.
  unfold extract_frames_locals.
  destruct (negb (path_exists h path)); [reflexivity|].
  unfold bind at 1.
  destruct (makedirs h (EXTRACTED_IMAGES_DIR h) w) as [[[]|e] w_d]; [|reflexivity].
  unfold bind at 1. cbn [set_handle snd].
  destruct (negb (isOpened (VideoCapture h path))); [reflexivity|].
  unfold bind at 1.
  destruct (for_loop _ _ _ _ _) as [[files|e] w1]; reflexivity.
Qed.



Lemma extract_frames_from_video_eq h tps path w :
  extract_frames_from_video h tps path w
  = match extract_frames_locals h tps path w with
    | (Ok locals, w') => (Ok (fst locals), w')
    | (Raise e, w') => (Raise e, w')
    end.
Proof. reflexivity. Qed.


(** C8, as the code has it.  When the call returns normally the video handle
    has been released.  When an exception leaves the call after the video
    was opened (the file is there, the output directory was made and the
    capture opened), that is, partway through the time points, the handle
    is still held: [video.release()] is the last statement before [return]
    and no exit path of the loop reaches it.  The one exception that can
    leave the call earlier although the video is there and would open is
    that of [os.makedirs]; it leaves everything as it was. *)
Theorem handle_released_on_return_only :
  forall h time_points video_path w,
    match extract_frames_from_video h time_points video_path w with
    | (Ok _, w') => handle_open w' = false
    | (Raise e, w') =>
        path_exists h video_path = true ->
        isOpened (VideoCapture h video_path) = true ->
        (fst (makedirs h (EXTRACTED_IMAGES_DIR h) w) = Ok tt -> handle_open w' = true) /\
        (forall e', fst (makedirs h (EXTRACTED_IMAGES_DIR h) w) = Raise e' ->
                    e = e' /\ w' = w)
    end.
Proof.
  intros h tps path w.
  rewrite extract_frames_from_video_eq, extract_frames_locals_eq.
  destruct (path_exists h path); cbn [negb]; [|intros; discriminate].
  destruct (makedirs_cases h (EXTRACTED_IMAGES_DIR h) w) as [Hd|[e Hd]]; rewrite Hd.
  2:{ cbn [fst]. intros _ _. split; [discriminate|].
      intros e' E. inversion E. split; reflexivity. }
  cbv zeta.
  destruct (isOpened (VideoCapture h path)); cbn [negb]; [|intros; discriminate].
  match goal with |- context [for_loop ?v ?d [] tps ?w0] =>
    pose proof (for_loop_handle v d tps [] w0) as Hh;
    destruct (for_loop v d [] tps w0) as [[fl|e] w1]
  end.
  - reflexivity.
  - intros _ _. cbn [fst]. split; [intros _; exact Hh|discriminate].
Qed.

Lemma handle_released_on_return_only_witness :
  handle_open
    (snd (extract_frames_from_video sample_host ["00:01"; "1e999"] "trailer.mp4"
            empty_world)) = true.
Proof.
  pose proof (handle_released_on_return_only sample_host ["00:01"; "1e999"]
                "trailer.mp4" empty_world) as H.
  destruct (extract_frames_from_video sample_host ["00:01"; "1e999"] "trailer.mp4"
              empty_world) as [[d|e] w'] eqn:E.
  - vm_compute in E. discriminate E.
  - apply (proj1 (H eq_refl eq_refl)). reflexivity.
Defined.

(** The time point ["nan"] is accepted by [float]; [int(nan * fps)] then
    raises [ValueError] outside the [try], and the call ends with the video
    handle still held. *)
Lemma handle_left_open_on_exception :
  let r := extract_frames_from_video sample_host ["00:01"; "nan"] "trailer.mp4"
             empty_world in
  fst r = Raise ValueError /\ handle_open (snd r) = true.
Proof. cbv zeta. split; vm_compute; reflexivity. Qed.

(** C10. The file name is made from [int(time_in_seconds)] alone.  When two
    time points of a batch, with any time points in between, both decode and
    have the same whole seconds [k], both frames are written to the one path
    [frame_<k>s.jpg]: after the first the file holds the first frame, after
    the second it holds the second, and [extracted_files] lists that path
    twice. *)
Theorem same_second_same_file :
  forall video dir files tp1 tp2 mid t1 t2 k n1 n2 f1 f2 w files_mid w_mid,
    parse_time_point tp1 = Ok t1 ->
    parse_time_point tp2 = Ok t2 ->
    to_int t1 = Ok k ->
    to_int t2 = Ok k ->
    to_int (mul t1 (CAP_PROP_FPS video)) = Ok n1 ->
    seek_read video (seeks w) n1 = Some f1 ->
    let p := path_join dir (frame_name k) in
    let w1 := snd (loop_body video dir files tp1 w) in
    for_loop video dir (files ++ [p])%list mid w1 = (Ok files_mid, w_mid) ->
    to_int (mul t2 (CAP_PROP_FPS video)) = Ok n2 ->
    seek_read video (seeks w_mid) n2 = Some f2 ->
    exists between w',
      for_loop video dir files (tp1 :: mid ++ [tp2])%list w
      = (Ok (files ++ [p] ++ between ++ [p])%list, w') /\
      fs w1 !! p = Some f1 /\
      fs w' = <[ p := f2 ]> (fs w_mid) /\
      fs w' !! p = Some f2.
Proof.
  intros video dir files tp1 tp2 mid t1 t2 k n1 n2 f1 f2 w files_mid w_mid
         Ht1 Ht2 Hk1 Hk2 Hn1 Hr1 p w1 Hmid Hn2 Hr2.
  pose proof (loop_body_saved video dir files tp1 w t1 n1 f1 k Ht1 Hn1 Hr1 Hk1) as Hb1.
  pose proof (loop_body_saved video dir files_mid tp2 w_mid t2 n2 f2 k Ht2 Hn2 Hr2 Hk2)
    as Hb2.
  fold p in Hb1, Hb2.
  destruct (for_loop_extends _ _ _ _ _ _ _ Hmid) as [between Hext].
  exists between. eexists.
  split; [|split; [|split]].
  - rewrite for_loop_cons, Hb1, for_loop_app.
    assert (snd (imwrite p f1 (snd (set_and_read video n1 w))) = w1) as ->
      by (unfold w1; rewrite Hb1; reflexivity).
    rewrite Hmid, for_loop_cons, Hb2. cbn [for_loop ret].
    rewrite Hext, <- !app_assoc. reflexivity.
  - unfold w1. rewrite Hb1. cbn. apply lookup_insert_eq.
  - reflexivity.
  - cbn. apply lookup_insert_eq.
Qed.

Lemma same_second_same_file_witness :
  exists between w',
    for_loop sample_video "extracted_images" [] ["00:01.2"; "00:01.7"] empty_world
    = (Ok ([] ++ ["extracted_images/frame_1s.jpg"] ++ between
              ++ ["extracted_images/frame_1s.jpg"])%list, w') /\
    fs w' !! "extracted_images/frame_1s.jpg" = Some [51].
Proof.
  destruct (same_second_same_file sample_video "extracted_images" []
              "00:01.2" "00:01.7" []
              (S754_finite false 5404319552844595 (-52))
              (S754_finite false 7656119366529843 (-52))
              1 36 51 [36] [51] empty_world
              ["extracted_images/frame_1s.jpg"]
              (snd (loop_body sample_video "extracted_images" [] "00:01.2" empty_world)))
    as (between & w' & Hrun & _ & _ & Hfile);
    try (vm_compute; reflexivity).
  exists between, w'. split; [exact Hrun|exact Hfile].
Defined.

End ExtractorFacts.

(** ** Waiting for the uploaded video *)

Module PollFacts.
Import Poll.

Lemma turns_body (n : nat) (svc : service) (v : vars) :
  turns (S n) svc v = body svc (turns n svc v).
Proof.
  revert v. induction n as [|n IH]; intros v; [reflexivity|].
  change (turns (S (S n)) svc v) with (turns (S n) svc (body svc v)).
  rewrite IH. reflexivity.
Qed.

(** While no poll reports [ACTIVE], the loop keeps turning: it cannot stop,
    and its counters grow with every turn. *)
Lemma never_active_keeps_turning (svc : service) :
  is_active (upload_file svc) = false ->
  (forall k, is_active (get_file svc k) = false) ->
  forall n,
    let v := turns n svc (start svc) in
    is_active (video_file_state v) = false /\
    retries v = Z.of_nat n /\ slept v = 15 * Z.of_nat n /\ calls v = n.
Proof.
  intros Hup Hget n. cbv zeta. induction n as [|n (Hs & Hr & Hsl & Hc)].
  - repeat split; try reflexivity. exact Hup.
  - rewrite turns_body. cbn [body video_file_state retries slept calls].
    repeat split; [apply Hget|lia|lia|congruence].
Qed.

Lemma while_not_active_turns (fuel : nat) (svc : service) :
  forall v,
    (forall n, (n <= fuel)%nat -> is_active (video_file_state (turns n svc v)) = false) ->
    while_not_active fuel svc v = None.
Proof.
  induction fuel as [|fuel IH]; intros v H.
  - pose proof (H 0%nat ltac:(lia)) as H0. cbn [turns] in H0.
    cbn [while_not_active]. rewrite H0. reflexivity.
  - pose proof (H 0%nat ltac:(lia)) as H0. cbn [turns] in H0.
    cbn [while_not_active]. rewrite H0.
    apply IH. intros n Hn. apply (H (S n)). lia.
Qed.

(** C9, on the code.  With a file that never becomes [ACTIVE] the loop is
    still running after any number of turns: [max_retries] is shown in the
    progress line but never compared with [retries], which passes it at the
    eleventh turn and keeps growing, fifteen seconds of sleep at a time. *)
Theorem poll_loop_ignores_max_retries :
  forall fuel : nat,
    while_not_active fuel stuck (start stuck) = None /\
    retries (turns fuel stuck (start stuck)) = Z.of_nat fuel /\
    slept (turns fuel stuck (start stuck)) = 15 * Z.of_nat fuel /\
    (max_retries < retries (turns 11 stuck (start stuck)) /\
     is_active (video_file_state (turns 11 stuck (start stuck))) = false /\
     last (printed (turns 11 stuck (start stuck)))
     = Some (PROCESSING, 11, max_retries)).
Proof.
  intros fuel.
  assert (forall n,
            let v := turns n stuck (start stuck) in
            is_active (video_file_state v) = false /\
            retries v = Z.of_nat n /\ slept v = 15 * Z.of_nat n /\ calls v = n)
    as H by (apply never_active_keeps_turning; reflexivity).
  split; [|split; [|split]].
  - apply while_not_active_turns. intros n _. apply (H n).
  - apply (H fuel).
  - apply (H fuel).
  - repeat split.
Qed.

(** The loop does stop once a poll reports [ACTIVE]. *)
Lemma poll_loop_stops_when_active :
  exists v, while_not_active 5 ready_after_three (start ready_after_three) = Some v /\
            retries v = 3 /\ slept v = 45.
Proof. eexists. repeat split. Qed.

End PollFacts.

(** ** Caption matching *)

Module MatcherFacts.
Import Str Matcher.

Section WithScorer.

Variable partial_ratio : string -> string -> Z.

(** The loop appends, in order, the scenes whose score reaches the
    threshold. *)
Lemma scan_filter (THRESHOLD : Z) (input_word : string) (items : list (string * string)) :
  forall matched_scenes,
    scan partial_ratio THRESHOLD input_word matched_scenes items
    = (matched_scenes
       ++ map fst (List.filter (accepts partial_ratio THRESHOLD input_word) items))%list.
Proof.
  induction items as [|[scene_path caption] rest IH]; intros matched.
  - simpl. rewrite app_nil_r. reflexivity.
  - cbn [scan List.filter]. unfold accepts at 1. cbn [snd].
    destruct (THRESHOLD <=? partial_ratio (lower input_word) (lower caption)).
    + rewrite IH, <- app_assoc. reflexivity.
    + apply IH.
Qed.

Lemma accepts_mono (t1 t2 : Z) (input_word : string) (item : string * string) :
  t1 <= t2 -> accepts partial_ratio t2 input_word item = true -> accepts partial_ratio t1 input_word item = true.
Proof. unfold accepts. intros Ht H. apply Z.leb_le in H. apply Z.leb_le. lia. Qed.

Lemma filter_mono_In (t1 t2 : Z) (input_word : string) (items : list (string * string))
    (scene : string) :
  t1 <= t2 ->
  In scene (map fst (List.filter (accepts partial_ratio t2 input_word) items)) ->
  In scene (map fst (List.filter (accepts partial_ratio t1 input_word) items)).
Proof.
  intros Ht. rewrite !in_map_iff. intros (item & Hfst & Hin).
  exists item. split; [exact Hfst|].
  apply filter_In in Hin as [Hin Hacc]. apply filter_In.
  split; [exact Hin|]. exact (accepts_mono _ _ _ _ Ht Hacc).
Qed.

Lemma filter_mono_length (t1 t2 : Z) (input_word : string)
    (items : list (string * string)) :
  t1 <= t2 ->
  (length (List.filter (accepts partial_ratio t2 input_word) items)
   <= length (List.filter (accepts partial_ratio t1 input_word) items))%nat.
Proof.
  intros Ht. induction items as [|item rest IH]; [reflexivity|].
  cbn [List.filter].
  destruct (accepts partial_ratio t2 input_word item) eqn:H2.
  - rewrite (accepts_mono _ _ _ _ Ht H2). simpl. lia.
  - destruct (accepts partial_ratio t1 input_word item); simpl; lia.
Qed.

End WithScorer.

(** C6. For a fixed query and caption store, raising the threshold never adds
    a scene: when the call at the higher threshold [t2] returns, so does the
    call at [t1 <= t2], every scene returned at [t2] is returned at [t1], and
    the result at [t2] is no longer than the one at [t1]. *)
Theorem match_monotone_in_threshold :
  forall (partial_ratio : string -> string -> Z) (t1 t2 : Z)
         (store : caption_store) (input_word : string) (out : list string)
         (matched2 : list string) (out2 : list string),
    t1 <= t2 ->
    find_matched_captions partial_ratio t2 store input_word out = (Ok matched2, out2) ->
    exists matched1,
      find_matched_captions partial_ratio t1 store input_word out = (Ok matched1, out2) /\
      (forall scene, In scene matched2 -> In scene matched1) /\
      (length matched2 <= length matched1)%nat.
Proof.
  intros pr t1 t2 store input_word out matched2 out2 Ht H2.
  destruct store as [| |items]; cbn in H2 |- *.
  - discriminate.
  - inversion H2; subst. exists []. repeat split; auto.
  - inversion H2; subst. eexists. split; [reflexivity|].
    rewrite !scan_filter. cbn [app]. split.
    + intros scene. apply filter_mono_In. exact Ht.
    + rewrite !length_map. apply filter_mono_length. exact Ht.
Qed.

Lemma match_monotone_in_threshold_witness :
  exists matched1,
    find_matched_captions prefix_score 60
      (Captions [("a.jpg", "Mario jumps"); ("b.jpg", "cooking video")]) "mario" []
    = (Ok matched1, []) /\
    (forall scene, In scene ["a.jpg"] -> In scene matched1) /\
    (length ["a.jpg"] <= length matched1)%nat.
Proof.
  apply (match_monotone_in_threshold prefix_score 60 90
           (Captions [("a.jpg", "Mario jumps"); ("b.jpg", "cooking video")])
           "mario" [] ["a.jpg"] []).
  - lia.
  - vm_compute. reflexivity.
Defined.

End MatcherFacts.

(** ** Time codes that do not parse *)

Module TimeCodeErrors.
Import Float Str FloatLiteral TimeCode.

(** [float] raises nothing but [ValueError]. *)

Lemma sum_terms_rejects (g : list (nat * string)) :
  Forall (fun ix => (fst ix < 174)%nat) g ->
  Exists (fun ix => py_float (snd ix) = Raise ValueError) g ->
  forall total, sum_terms total g = Raise ValueError.
Proof.
  induction g as [|[i x] g IH]; intros Hidx Hbad total; [inversion Hbad|].
  inversion Hidx as [|? ? Hi Hrest]; subst. cbn [fst] in Hi.
  cbn [sum_terms term].
  destruct (py_float x) as [v|e] eqn:Hx.
  - cbn [rbind]. unfold mul_int.
    destruct (TimeCodeFacts.weight_ok i Hi) as [wt Hwt]. rewrite Hwt. cbn [rbind].
    apply IH; [exact Hrest|].
    inversion Hbad as [? ? Hhead|? ? Htail]; subst; [|exact Htail].
    cbn [snd] in Hhead. congruence.
  - rewrite (FloatFacts.py_float_raises_value_error x e Hx). reflexivity.
Qed.

Lemma combine_seq_fst {A} (l : list A) (k : nat) :
  Forall (fun ix : nat * A => (fst ix < k + length l)%nat) (combine (seq k (length l)) l).
Proof.
  revert k. induction l as [|x l IH]; intros k; cbn; constructor.
  - cbn. lia.
  - eapply Forall_impl; [apply (IH (S k))|]. cbn. intros ix H. lia.
Qed.

Lemma combine_seq_exists {A} (P : A -> Prop) (l : list A) (k : nat) :
  Exists P l -> Exists (fun ix : nat * A => P (snd ix)) (combine (seq k (length l)) l).
Proof.
  intros H. revert k. induction H as [x l Hx|x l _ IH]; intros k; cbn.
  - apply Exists_cons_hd. exact Hx.
  - apply Exists_cons_tl. apply IH.
Qed.

(** X1. Rejected fields.  A time point of at most 174 fields in which some
    field is not accepted by [float] never parses: the outcome is
    [ValueError], whichever field it is and whatever the other fields
    hold.  In particular an empty field (an empty string, a leading or
    trailing colon, two colons in a row) is a [ValueError]. *)
Theorem rejected_field_is_value_error :
  forall time_point : string,
    (length (split ":" time_point) <= 174)%nat ->
    (Exists (fun x => exists e, py_float x = Raise e) (split ":" time_point) ->
     parse_time_point time_point = Raise ValueError) /\
    (In "" (split ":" time_point) ->
     parse_time_point time_point = Raise ValueError).
Proof.
  intros tp Hlen.
  assert (Hmain : Exists (fun x => exists e, py_float x = Raise e) (split ":" tp) ->
                  parse_time_point tp = Raise ValueError).
  { intros Hbad. unfold parse_time_point, enumerate.
    apply sum_terms_rejects.
    - eapply Forall_impl; [apply (combine_seq_fst (rev (split ":" tp)) 0)|].
      cbn. intros ix H. rewrite length_rev in H. lia.
    - apply (combine_seq_exists (fun x => py_float x = Raise ValueError)).
      apply List.Exists_exists. apply List.Exists_exists in Hbad as (x & Hin & e & He).
      exists x. split; [apply in_rev in Hin; exact Hin|].
      rewrite He. f_equal. exact (FloatFacts.py_float_raises_value_error x e He). }
  split; [exact Hmain|].
  intros Hin. apply Hmain. apply List.Exists_exists.
  exists "". split; [exact Hin|]. exists ValueError. reflexivity.
Qed.

Lemma rejected_field_is_value_error_witness :
  parse_time_point "00:ab:10" = Raise ValueError /\
  parse_time_point "01::10" = Raise ValueError /\
  parse_time_point (String "0" (String ":" (String "031" "5"))) = Raise ValueError.
Proof.
  split; [|split].
  - apply (proj1 (rejected_field_is_value_error "00:ab:10" ltac:(cbn; lia))).
    apply Exists_cons_tl. apply Exists_cons_hd. exists ValueError. reflexivity.
  - apply (proj2 (rejected_field_is_value_error "01::10" ltac:(cbn; lia))).
    right. left. reflexivity.
  - apply (proj1 (rejected_field_is_value_error
                    (String "0" (String ":" (String "031" "5")))
                    ltac:(vm_compute; lia))).
    apply Exists_cons_tl. apply Exists_cons_hd. exists ValueError.
    vm_compute. reflexivity.
Defined.

End TimeCodeErrors.

(** ** Tile placement *)

Module LayoutFacts.
Import Collage Layout.

Lemma per_row_reached (tw cw j : Z) :
  0 < tw -> (cw <= j * tw <-> per_row tw cw <= j).
Proof.
  intros Htw. unfold per_row.
  pose proof (Z.div_mod (cw + tw - 1) tw ltac:(lia)) as Hdm.
  pose proof (Z.mod_pos_bound (cw + tw - 1) tw Htw) as Hmod.
  split; intros H; nia.
Qed.

Lemma per_row_pos (tw cw : Z) : 0 < tw -> 0 < cw -> 1 <= per_row tw cw.
Proof.
  intros Htw Hcw. apply Z.lt_pred_le. simpl.
  destruct (Z.le_gt_cases (per_row tw cw) 0) as [H|H]; [|lia].
  apply (per_row_reached tw cw 0 Htw) in H. lia.
Qed.

(** From column [j] of row [r], the [i]-th further image lands [i] cells
    on, counting [per_row] cells to a row. *)
Lemma paste_all_from (tw th cw : Z) (imgs : list image) :
  0 < tw -> 0 < cw ->
  forall (j r : Z) (i : nat) (img : image),
    0 <= j < per_row tw cw ->
    imgs !! i = Some img ->
    paste_all tw th cw (j * tw) (r * th) imgs !! i
    = Some {| pasted := img;
              x_at := ((j + Z.of_nat i) mod per_row tw cw) * tw;
              y_at := (r + (j + Z.of_nat i) / per_row tw cw) * th |}.
Proof.
  intros Htw Hcw. set (k := per_row tw cw).
  assert (Hk : 1 <= k) by (apply per_row_pos; lia).
  induction imgs as [|im rest IH]; intros j r i img Hj Hi; [discriminate|].
  cbn [paste_all].
  assert (Hwrap : (cw <=? j * tw + tw) = (k <=? j + 1)).
  { replace (j * tw + tw) with ((j + 1) * tw) by lia.
    pose proof (per_row_reached tw cw (j + 1) Htw) as Hr. fold k in Hr.
    destruct (cw <=? (j + 1) * tw) eqn:E1, (k <=? j + 1) eqn:E2; try reflexivity.
    - apply Z.leb_le in E1. apply Z.leb_gt in E2. lia.
    - apply Z.leb_gt in E1. apply Z.leb_le in E2. lia. }
  rewrite Hwrap.
  destruct i as [|i].
  - cbn in Hi. inversion Hi; subst.
    rewrite Z.add_0_r, Z.mod_small, Z.div_small by lia.
    rewrite Z.add_0_r.
    destruct (k <=? j + 1); reflexivity.
  - cbn in Hi.
    destruct (k <=? j + 1) eqn:E; rewrite lookup_cons.
    + apply Z.leb_le in E. assert (j + 1 = k) by lia.
      pose proof (IH 0 (r + 1) i img ltac:(lia) Hi) as IH0.
      rewrite Z.mul_0_l in IH0.
      replace ((r + 1) * th) with (r * th + th) in IH0 by lia.
      rewrite IH0.
      replace (j + Z.of_nat (S i)) with (Z.of_nat i + 1 * k) by lia.
      rewrite Z.mod_add, Z.div_add by lia.
      rewrite Z.add_0_l. f_equal. f_equal. lia.
    + apply Z.leb_gt in E.
      pose proof (IH (j + 1) r i img ltac:(lia) Hi) as IH1.
      replace ((j + 1) * tw) with (j * tw + tw) in IH1 by lia.
      rewrite IH1.
      replace (j + 1 + Z.of_nat i) with (j + Z.of_nat (S i)) by lia.
      reflexivity.
Qed.

(** *** What [create_collage] saves *)

Lemma load_opens (image_open : string -> result image) (paths : list string) :
  forall images,
    load image_open paths = Ok images ->
    Forall2 (fun path img => image_open path = Ok img) paths images.
Proof.
  induction paths as [|path rest IH]; intros images H; cbn in H.
  - inversion H. constructor.
  - destruct (image_open path) as [img|e] eqn:Hp; [|discriminate].
    cbn in H. destruct (load image_open rest) as [imgs|e]; [|discriminate].
    cbn in H. inversion H. constructor; [exact Hp|]. apply IH. reflexivity.
Qed.

Lemma load_fails (image_open : string -> result image) (paths : list string) :
  Exists (fun path => exists e, image_open path = Raise e) paths ->
  exists e, load image_open paths = Raise e.
Proof.
  induction 1 as [path rest [e He]|path rest _ [e IH]]; cbn.
  - rewrite He. eauto.
  - destruct (image_open path); cbn; [|eauto]. rewrite IH. eauto.
Qed.

Lemma load_all (image_open : string -> result image) (paths : list string) :
  Forall (fun path => exists img, image_open path = Ok img) paths ->
  exists images, load image_open paths = Ok images /\ length images = length paths.
Proof.
  induction 1 as [|path rest [img Hp] _ (imgs & IH & Hlen)]; cbn.
  - exists []. split; reflexivity.
  - rewrite Hp, IH. cbn. exists (img :: imgs). split; [reflexivity|]. cbn. congruence.
Qed.

Lemma create_collage_eq (image_open : string -> result image) paths W H out w :
  create_collage image_open paths W H out w
  = match load image_open paths with
    | Raise e => (Raise e, w)
    | Ok images =>
        let n := Z.of_nat (length images) in
        if n =? 0 then print "No images found for the given search term." w
        else
          (Ok tt,
           {| files :=
                <[ out := {| canvas_width := W; canvas_height := H;
                             pastes := paste_all (W / cols n) (H / rows n) W 0 0
                                         (map (fun img => resize img (W / cols n) (H / rows n))
                                              images) |} ]> (files w);
              stdout := (stdout w ++ ["Collage created and saved to " +:+ out])%list;
              browser := browser w |})
    end.
Proof.
  unfold create_collage, bind, lift.
  destruct (load image_open paths) as [images|e]; [|reflexivity].
  cbv zeta. destruct (Z.of_nat (length images) =? 0); reflexivity.
Qed.

Lemma grid_rows_cover (n : Z) : 1 <= n -> 1 <= cols n /\ 1 <= rows n /\ n <= rows n * cols n.
Proof.
  intros Hn. pose proof (CollageFacts.cols_pos n Hn) as Hc.
  pose proof (Z.div_mod n (cols n) ltac:(lia)) as Hdm.
  pose proof (Z.mod_pos_bound n (cols n) ltac:(lia)) as Hmod.
  assert (0 <= n / cols n) by (apply Z.div_pos; lia).
  rewrite CollageFacts.rows_ceil.
  destruct (n mod cols n =? 0) eqn:E.
  - apply Z.eqb_eq in E. repeat split; nia.
  - repeat split; nia.
Qed.

Lemma per_row_ge_cols (W c : Z) : 0 < c -> 0 < W / c -> c <= per_row (W / c) W.
Proof.
  intros Hc Htw.
  pose proof (Z.mul_div_le W c Hc) as Hle.
  destruct (Z.le_gt_cases c (per_row (W / c) W)) as [|Hlt]; [assumption|].
  assert (per_row (W / c) W <= c - 1) as Hk by lia.
  apply (per_row_reached (W / c) W (c - 1) Htw) in Hk. nia.
Qed.

Lemma paste_all_length (tw th cw : Z) (imgs : list image) :
  forall x y, length (paste_all tw th cw x y imgs) = length imgs.
Proof.
  induction imgs as [|im rest IH]; intros x y; [reflexivity|].
  cbn [paste_all]. destruct (cw <=? x + tw); cbn; rewrite IH; reflexivity.
Qed.

(** The canvas saved for a list of paths that all open. *)
Lemma collage_canvas (image_open : string -> result image) paths W H out w :
  Forall (fun path => exists img, image_open path = Ok img) paths ->
  paths <> [] ->
  let n := Z.of_nat (length paths) in
  0 < W / cols n ->
  exists c,
    create_collage image_open paths W H out w
    = (Ok tt, {| files := <[ out := c ]> (files w);
                 stdout := (stdout w ++ ["Collage created and saved to " +:+ out])%list;
                 browser := browser w |}) /\
    canvas_width c = W /\ canvas_height c = H /\
    length (pastes c) = length paths /\
    forall (i : nat) (path : string),
      paths !! i = Some path ->
      exists img,
        image_open path = Ok img /\
        pastes c !! i
        = Some {| pasted := {| source := source img;
                               width := W / cols n; height := H / rows n |};
                  x_at := (Z.of_nat i mod per_row (W / cols n) W) * (W / cols n);
                  y_at := (Z.of_nat i / per_row (W / cols n) W) * (H / rows n) |}.
Proof.
  intros Hopen Hne n Htw.
  destruct (load_all image_open paths Hopen) as (images & Hload & Hlen).
  assert (Hn : 1 <= n) by (unfold n; destruct paths; [congruence|cbn; lia]).
  destruct (grid_rows_cover n Hn) as (Hc & Hr & Hcover).
  assert (HW : 0 < W).
  { destruct (Z.le_gt_cases W 0) as [HW|]; [|lia].
    pose proof (Z.div_le_upper_bound W (cols n) 0 ltac:(lia) ltac:(lia)). lia. }
  rewrite create_collage_eq, Hload. cbv zeta. rewrite Hlen. fold n.
  destruct (n =? 0) eqn:E; [apply Z.eqb_eq in E; lia|].
  eexists. split; [reflexivity|]. cbn [canvas_width canvas_height pastes].
  split; [reflexivity|]. split; [reflexivity|].
  split; [rewrite paste_all_length, length_map; exact Hlen|].
  intros i path Hi.
  pose proof (load_opens _ _ _ Hload) as Hall.
  destruct (Forall2_lookup_l _ _ _ _ _ Hall Hi) as (img & Himg & Hp).
  exists img. split; [exact Hp|].
  pose proof (paste_all_from (W / cols n) (H / rows n) W
                (map (fun img => resize img (W / cols n) (H / rows n)) images)
                Htw HW 0 0 i (resize img (W / cols n) (H / rows n))) as Hpaste.
  rewrite !Z.mul_0_l, !Z.add_0_l in Hpaste.
  apply Hpaste.
  - pose proof (per_row_pos (W / cols n) W Htw HW). lia.
  - rewrite list_lookup_fmap, Himg. reflexivity.
Qed.

(** X2. Tile placement.  When every path opens and the thumbnail width is
    positive, [create_collage] saves a canvas of the requested size with one
    paste per path, in input order; each tile has the thumbnail size, and
    tile [i] sits at column [i mod k], row [i / k] of the thumbnail grid,
    where [k] is the number of thumbnails it takes to reach the canvas
    width. *)
Theorem tiles_follow_offsets :
  forall (image_open : string -> result image) paths W H out w,
    Forall (fun path => exists img, image_open path = Ok img) paths ->
    paths <> [] ->
    let n := Z.of_nat (length paths) in
    let tw := W / cols n in
    let th := H / rows n in
    0 < tw -> 0 < th ->
    exists c,
      files (snd (create_collage image_open paths W H out w)) !! out = Some c /\
      canvas_width c = W /\ canvas_height c = H /\
      length (pastes c) = length paths /\
      forall (i : nat) (path : string),
        paths !! i = Some path ->
        exists img,
          image_open path = Ok img /\
          pastes c !! i
          = Some {| pasted := {| source := source img; width := tw; height := th |};
                    x_at := (Z.of_nat i mod per_row tw W) * tw;
                    y_at := (Z.of_nat i / per_row tw W) * th |}.
Proof.
  intros image_open paths W H out w Hopen Hne n tw th Htw _.
  destruct (collage_canvas image_open paths W H out w Hopen Hne Htw)
    as (c & Hrun & HcW & HcH & Hlen & Hpos).
  exists c. rewrite Hrun. cbn [snd files].
  split; [apply lookup_insert_eq|]. auto.
Qed.

Lemma tiles_follow_offsets_witness :
  exists c,
    files (snd (create_collage any_image five 800 600 "collage.png" blank))
      !! "collage.png" = Some c /\
    pastes c !! 3%nat
    = Some {| pasted := {| source := "d.jpg"; width := 266; height := 300 |};
              x_at := 798; y_at := 0 |}.
Proof.
  destruct (tiles_follow_offsets any_image five 800 600 "collage.png" blank)
    as (c & Hc & _ & _ & _ & Hpos).
  - repeat constructor; eexists; reflexivity.
  - discriminate.
  - reflexivity.
  - reflexivity.
  - exists c. split; [exact Hc|].
    destruct (Hpos 3%nat "d.jpg" eq_refl) as (img & Himg & Hp).
    inversion Himg; subst. exact Hp.
Defined.

(** X3. Tiles and the canvas.  With positive thumbnail sizes, every tile
    starts inside the canvas and none reaches below its bottom edge, and no
    two tiles share a position.  When the thumbnail width divides the canvas
    width (as it does when [cols] divides it, and then a row holds exactly
    [cols] tiles), every tile lies wholly inside the canvas. *)
Theorem tiles_inside_canvas :
  forall (image_open : string -> result image) paths W H out w,
    Forall (fun path => exists img, image_open path = Ok img) paths ->
    paths <> [] ->
    let n := Z.of_nat (length paths) in
    let tw := W / cols n in
    let th := H / rows n in
    0 < tw -> 0 < th ->
    exists c,
      files (snd (create_collage image_open paths W H out w)) !! out = Some c /\
      (forall p, In p (pastes c) ->
         0 <= x_at p < W /\ 0 <= y_at p /\ y_at p + height (pasted p) <= H) /\
      (forall (i j : nat) p q,
         i <> j -> pastes c !! i = Some p -> pastes c !! j = Some q ->
         (x_at p, y_at p) <> (x_at q, y_at q)) /\
      (W mod tw = 0 -> forall p, In p (pastes c) -> inside W H p) /\
      (W mod cols n = 0 -> W mod tw = 0 /\ per_row tw W = cols n).
Proof.
  intros image_open paths W H out w Hopen Hne n tw th Htw Hth.
  destruct (collage_canvas image_open paths W H out w Hopen Hne Htw)
    as (c & Hrun & HcW & HcH & Hlen & Hpos).
  fold tw in Hpos. fold th in Hpos.
  assert (Hn : 1 <= n) by (unfold n; destruct paths; [congruence|cbn; lia]).
  destruct (grid_rows_cover n Hn) as (Hc & Hr & Hcover).
  assert (HW : 0 < W).
  { destruct (Z.le_gt_cases W 0) as [HW|]; [|lia].
    pose proof (Z.div_le_upper_bound W (cols n) 0 ltac:(lia) ltac:(lia)). fold tw in H0. lia. }
  assert (HH : 0 < H).
  { destruct (Z.le_gt_cases H 0) as [HH|]; [|lia].
    pose proof (Z.div_le_upper_bound H (rows n) 0 ltac:(lia) ltac:(lia)). fold th in H0. lia. }
  set (k := per_row tw W) in *.
  assert (Hk : 1 <= k) by (apply per_row_pos; lia).
  assert (Hkc : cols n <= k) by (apply per_row_ge_cols; [lia|exact Htw]).
  (* every paste is the one the formula gives *)
  assert (Hat : forall (i : nat) p,
            pastes c !! i = Some p ->
            (Z.of_nat i < n) /\
            width (pasted p) = tw /\ height (pasted p) = th /\
            x_at p = (Z.of_nat i mod k) * tw /\ y_at p = (Z.of_nat i / k) * th).
  { intros i p Hp.
    assert (Hi : (i < length paths)%nat).
    { rewrite <- Hlen. apply lookup_lt_is_Some. eauto. }
    destruct (lookup_lt_is_Some_2 paths i Hi) as [path Hpath].
    destruct (Hpos i path Hpath) as (img & _ & Hp').
    rewrite Hp in Hp'. inversion Hp'; subst p. cbn.
    split; [unfold n; lia|]. repeat split. }
  assert (Hxy : forall (i : nat) p,
            pastes c !! i = Some p ->
            0 <= x_at p < W /\ 0 <= y_at p /\ y_at p + height (pasted p) <= H).
  { intros i p Hp. destruct (Hat i p Hp) as (Hi & Hw & Hh & Hx & Hy).
    rewrite Hx, Hy, Hh.
    pose proof (Z.mod_pos_bound (Z.of_nat i) k ltac:(lia)) as Hm.
    assert (0 <= Z.of_nat i / k) by (apply Z.div_pos; lia).
    assert (Hrow : Z.of_nat i / k < rows n).
    { apply Z.div_lt_upper_bound; [lia|]. nia. }
    assert (Hx' : ~ W <= (Z.of_nat i mod k) * tw).
    { intros Hge. apply (per_row_reached tw W _ Htw) in Hge. fold k in Hge. lia. }
    pose proof (Z.mul_div_le H (rows n) ltac:(lia)) as Hhle. fold th in Hhle.
    repeat split; nia. }
  exists c. rewrite Hrun. cbn [snd files].
  split; [apply lookup_insert_eq|].
  split.
  { intros p Hin. apply list_elem_of_In, list_elem_of_lookup in Hin as [i Hp].
    exact (Hxy i p Hp). }
  split.
  { intros i j p q Hij Hp Hq Heq.
    destruct (Hat i p Hp) as (_ & _ & _ & Hx & Hy).
    destruct (Hat j q Hq) as (_ & _ & _ & Hx' & Hy').
    inversion Heq as [[Hxe Hye]]. rewrite Hx, Hx' in Hxe. rewrite Hy, Hy' in Hye.
    assert (Z.of_nat i mod k = Z.of_nat j mod k) by nia.
    assert (Z.of_nat i / k = Z.of_nat j / k) by nia.
    pose proof (Z.div_mod (Z.of_nat i) k ltac:(lia)).
    pose proof (Z.div_mod (Z.of_nat j) k ltac:(lia)).
    apply Hij. nia. }
  split.
  { intros Hdiv p Hin.
    apply list_elem_of_In, list_elem_of_lookup in Hin as [i Hp].
    destruct (Hxy i p Hp) as (Hx & Hy0 & Hy).
    destruct (Hat i p Hp) as (_ & Hw & _ & Hxe & _).
    unfold inside. rewrite Hw. repeat split; try lia.
    pose proof (Z.div_mod W tw ltac:(lia)) as HWd. rewrite Hdiv in HWd.
    pose proof (Z.mod_pos_bound (Z.of_nat i) k ltac:(lia)) as Hm.
    assert (k <= W / tw).
    { apply (per_row_reached tw W (W / tw) Htw). lia. }
    rewrite Hxe. nia. }
  intros Hdiv.
  pose proof (Z.div_mod W (cols n) ltac:(lia)) as HWd. rewrite Hdiv in HWd.
  fold tw in HWd.
  split.
  - replace W with (cols n * tw) by lia. apply Z.mod_mul. lia.
  - assert (k <= cols n) by (apply (per_row_reached tw W (cols n) Htw); lia).
    lia.
Qed.

Lemma tiles_inside_canvas_witness :
  exists c,
    files (snd (create_collage any_image ["a.jpg"; "b.jpg"; "c.jpg"] 800 600
                  "collage.png" blank)) !! "collage.png" = Some c /\
    forall p, In p (pastes c) -> inside 800 600 p.
Proof.
  destruct (tiles_inside_canvas any_image ["a.jpg"; "b.jpg"; "c.jpg"] 800 600
              "collage.png" blank) as (c & Hc & _ & _ & Hin & _).
  - repeat constructor; eexists; reflexivity.
  - discriminate.
  - reflexivity.
  - reflexivity.
  - exists c. split; [exact Hc|]. apply Hin. reflexivity.
Defined.



(** X5. All or nothing.  If any of the paths fails to open, the exception
    leaves [create_collage] and [generate_collage] before anything is
    printed, saved or shown: the world is as it was. *)
Theorem unopenable_image_aborts :
  forall (image_open : string -> result image) paths w,
    Exists (fun path => exists e, image_open path = Raise e) paths ->
    exists e,
      generate_collage image_open paths w = (Raise e, w) /\
      forall W H out, create_collage image_open paths W H out w = (Raise e, w).
Proof.
  intros image_open paths w Hbad.
  destruct (load_fails image_open paths Hbad) as [e He].
  exists e.
  assert (Hc : forall W H out, create_collage image_open paths W H out w = (Raise e, w)).
  { intros W H out. rewrite create_collage_eq, He. reflexivity. }
  split; [|exact Hc].
  destruct paths as [|path rest]; [inversion Hbad|].
  unfold generate_collage, bind. rewrite Hc. reflexivity.
Qed.

Lemma unopenable_image_aborts_witness :
  exists e,
    generate_collage
      (fun path => if String.eqb path "b.jpg" then Raise FileNotFoundError
                   else any_image path)
      ["a.jpg"; "b.jpg"] blank = (Raise e, blank).
Proof.
  destruct (unopenable_image_aborts
              (fun path => if String.eqb path "b.jpg" then Raise FileNotFoundError
                           else any_image path)
              ["a.jpg"; "b.jpg"] blank) as (e & He & _).
  - apply Exists_cons_tl. apply Exists_cons_hd. exists FileNotFoundError. reflexivity.
  - exists e. exact He.
Defined.

(** X6. What a successful collage changes.  When every path opens and the
    thumbnails have positive size, [generate_collage] returns normally
    having replaced the one file [collage.png] by a 800x600 canvas with one
    tile per path, printed one line and opened [collage.png] once; no
    other file is touched. *)
Theorem collage_only_changes_its_file :
  forall (image_open : string -> result image) paths w,
    Forall (fun path => exists img, image_open path = Ok img) paths ->
    paths <> [] ->
    let n := Z.of_nat (length paths) in
    0 < 800 / cols n -> 0 < 600 / rows n ->
    exists c w',
      generate_collage image_open paths w = (Ok tt, w') /\
      files w' !! "collage.png" = Some c /\
      canvas_width c = 800 /\ canvas_height c = 600 /\
      length (pastes c) = length paths /\
      (forall file, file <> "collage.png" -> files w' !! file = files w !! file) /\
      stdout w' = (stdout w ++ ["Collage created and saved to collage.png"])%list /\
      browser w' = (browser w ++ ["collage.png"])%list.
Proof.
  intros image_open paths w Hopen Hne n Htw _.
  destruct (collage_canvas image_open paths 800 600 "collage.png" w Hopen Hne Htw)
    as (c & Hrun & HcW & HcH & Hlen & _).
  exists c. eexists.
  split.
  { destruct paths as [|path rest]; [congruence|].
    unfold generate_collage, bind. rewrite Hrun. reflexivity. }
  cbn [files stdout browser].
  split; [apply lookup_insert_eq|].
  repeat split; try assumption.
  intros file Hfile. apply lookup_insert_ne. congruence.
Qed.

Lemma collage_only_changes_its_file_witness :
  exists c w',
    generate_collage any_image five blank = (Ok tt, w') /\
    files w' !! "collage.png" = Some c /\
    length (pastes c) = 5%nat.
Proof.
  destruct (collage_only_changes_its_file any_image five blank)
    as (c & w' & Hrun & Hc & _ & _ & Hlen & _).
  - repeat constructor; eexists; reflexivity.
  - discriminate.
  - reflexivity.
  - reflexivity.
  - exists c, w'. split; [exact Hrun|]. split; [exact Hc|exact Hlen].
Defined.

(** X7. A near-square grid without an empty row.  For every count [n >= 1]
    the grid has as many rows as columns or one row less, and its last row
    is not empty: [(rows - 1) * cols < n <= rows * cols]. *)
Theorem grid_is_near_square :
  forall n : Z,
    1 <= n ->
    cols n - 1 <= rows n <= cols n /\
    (rows n - 1) * cols n < n <= rows n * cols n.
Proof.
  intros n Hn.
  destruct (grid_rows_cover n Hn) as (Hc & Hr & Hcover).
  pose proof (Z.div_mod n (cols n) ltac:(lia)) as Hdm.
  pose proof (Z.mod_pos_bound n (cols n) ltac:(lia)) as Hmod.
  assert (Hlast : (rows n - 1) * cols n < n).
  { rewrite CollageFacts.rows_ceil.
    destruct (n mod cols n =? 0) eqn:E; [apply Z.eqb_eq in E|apply Z.eqb_neq in E]; nia. }
  split; [|lia].
  unfold cols, int_sqrt in *.
  destruct (n =? 1) eqn:E1.
  - apply Z.eqb_eq in E1. subst n. cbn. lia.
  - pose proof (Z.sqrt_spec n ltac:(lia)) as Hs. cbv zeta in Hs.
    pose proof (Z.sqrt_nonneg n) as Hs0.
    set (s := Z.sqrt n) in *. split; nia.
Qed.

Lemma grid_is_near_square_witness :
  cols 16 - 1 <= rows 16 <= cols 16 /\ (rows 16 - 1) * cols 16 < 16 <= rows 16 * cols 16.
Proof. apply (grid_is_near_square 16). lia. Defined.

End LayoutFacts.

(** ** Files, output and reruns of the extractor *)

Module PlanFacts.
Import Float Str TimeCode Extractor Plan.

Lemma apply_writes_app m ws1 ws2 :
  apply_writes m (ws1 ++ ws2) = apply_writes (apply_writes m ws1) ws2.
Proof. unfold apply_writes. apply fold_left_app. Qed.

Lemma extends_refl dir w : extends dir w w [].
Proof.
  repeat split; try reflexivity; [constructor|exists []|exists []].
  - rewrite app_nil_r. reflexivity.
  - reflexivity.
Qed.

Lemma extends_trans dir w1 w2 w3 ws1 ws2 :
  extends dir w1 w2 ws1 -> extends dir w2 w3 ws2 -> extends dir w1 w3 (ws1 ++ ws2).
Proof.
  intros (Hf1 & Hp1 & [l1 Ho1] & [s1 Hs1] & Hd1 & Hh1)
         (Hf2 & Hp2 & [l2 Ho2] & [s2 Hs2] & Hd2 & Hh2).
  repeat split.
  - rewrite Hf2, Hf1, apply_writes_app. reflexivity.
  - apply Forall_app. split; assumption.
  - exists (l1 ++ l2)%list. rewrite Ho2, Ho1, app_assoc. reflexivity.
  - exists (s2 ++ s1)%list. rewrite Hs2, Hs1, app_assoc. reflexivity.
  - congruence.
  - congruence.
Qed.

(** One iteration writes at most one file, a frame file of the output
    directory, and lists it exactly when it wrote it. *)
Lemma loop_body_extends_world video dir files tp w :
  exists ws,
    extends dir w (snd (loop_body video dir files tp w)) ws /\
    (length ws <= 1)%nat /\
    match fst (loop_body video dir files tp w) with
    | Ok files' => files' = (files ++ map fst ws)%list
    | Raise _ => ws = []
    end.
Proof.
  unfold loop_body, bind, lift.
  destruct (parse_time_point tp) as [t|e0].
  - destruct (to_int (mul t (CAP_PROP_FPS video))) as [n|e].
    + cbn [set_and_read].
      destruct (seek_read video (seeks w) n) as [f|].
      * destruct (to_int t) as [k|e].
        -- exists [(path_join dir (frame_name k), f)]. cbn.
           split; [|split; [lia|reflexivity]].
           repeat split; try reflexivity.
           ++ constructor; [exists k; reflexivity|constructor].
           ++ exists []. rewrite app_nil_r. reflexivity.
           ++ exists [n]. reflexivity.
        -- exists []. cbn. split; [|split; [lia|reflexivity]].
           repeat split; try reflexivity; [constructor|exists []|exists [n]].
           ++ rewrite app_nil_r. reflexivity.
           ++ reflexivity.
      * exists []. cbn. split; [|split; [lia|rewrite app_nil_r; reflexivity]].
        repeat split; try reflexivity; [constructor|eexists; reflexivity|exists [n]; reflexivity].
    + exists []. split; [apply extends_refl|]. split; [cbn; lia|reflexivity].
  - destruct e0;
      try (exists []; split; [apply extends_refl|]; split; [cbn; lia|reflexivity]).
    exists []. cbn. split; [|split; [lia|rewrite app_nil_r; reflexivity]].
    repeat split; try reflexivity; [constructor|eexists; reflexivity|exists []; reflexivity].
Qed.

Lemma for_loop_extends_world video dir tps :
  forall files w,
  exists ws,
    extends dir w (snd (for_loop video dir files tps w)) ws /\
    (length ws <= length tps)%nat /\
    match fst (for_loop video dir files tps w) with
    | Ok files' => files' = (files ++ map fst ws)%list
    | Raise _ => True
    end.
Proof.
  induction tps as [|tp rest IH]; intros files w.
  - exists []. split; [apply extends_refl|]. split; [cbn; lia|].
    cbn. rewrite app_nil_r. reflexivity.
  - rewrite ExtractorFacts.for_loop_cons.
    destruct (loop_body_extends_world video dir files tp w) as (ws1 & He1 & Hl1 & Hr1).
    destruct (loop_body video dir files tp w) as [[files1|e] w1]; cbn [fst snd] in *.
    + destruct (IH files1 w1) as (ws2 & He2 & Hl2 & Hr2).
      exists (ws1 ++ ws2)%list.
      split; [exact (extends_trans _ _ _ _ _ _ He1 He2)|].
      split; [rewrite length_app; cbn; lia|].
      destruct (for_loop video dir files1 rest w1) as [[files2|e] w2]; cbn [fst] in *; [|exact I].
      rewrite Hr2, Hr1, map_app, app_assoc. reflexivity.
    + exists ws1. split; [exact He1|]. split; [cbn; lia|exact I].
Qed.

Lemma apply_writes_elsewhere (ws : list (string * frame)) (p : string) :
  Forall (fun pf => fst pf <> p) ws ->
  forall m, apply_writes m ws !! p = m !! p.
Proof.
  induction 1 as [|pf ws Hpf _ IH]; intros m; [reflexivity|].
  cbn. change (fold_left _ ws ?m0) with (apply_writes m0 ws).
  rewrite IH. apply lookup_insert_ne. exact Hpf.
Qed.

Lemma apply_writes_keeps (ws : list (string * frame)) (p : string) :
  forall m, is_Some (m !! p) -> is_Some (apply_writes m ws !! p).
Proof.
  induction ws as [|pf ws IH]; intros m Hm; [exact Hm|].
  cbn. change (fold_left _ ws ?m0) with (apply_writes m0 ws).
  apply IH. destruct (decide (fst pf = p)) as [->|Hne].
  - rewrite lookup_insert_eq. eauto.
  - rewrite lookup_insert_ne by exact Hne. exact Hm.
Qed.

Lemma apply_writes_written (ws : list (string * frame)) (p : string) :
  In p (map fst ws) -> forall m, is_Some (apply_writes m ws !! p).
Proof.
  induction ws as [|pf ws IH]; intros Hin m; [destruct Hin|].
  cbn. change (fold_left _ ws ?m0) with (apply_writes m0 ws).
  destruct Hin as [<-|Hin].
  - apply apply_writes_keeps. rewrite lookup_insert_eq. eauto.
  - apply IH. exact Hin.
Qed.

(** The call as a whole, whatever its outcome. *)
Lemma call_extends_world h tps path w :
  exists ws,
    fs (snd (extract_frames_locals h tps path w)) = apply_writes (fs w) ws /\
    Forall (fun pf => frame_file (EXTRACTED_IMAGES_DIR h) (fst pf)) ws /\
    (length ws <= length tps)%nat /\
    (exists lines, stdout (snd (extract_frames_locals h tps path w))
                   = (stdout w ++ lines)%list) /\
    (exists issued, seeks (snd (extract_frames_locals h tps path w))
                    = (issued ++ seeks w)%list) /\
    match fst (extract_frames_locals h tps path w) with
    | Ok (_, files) => files = map fst ws
    | Raise _ => True
    end.
Proof.
  rewrite ExtractorFacts.extract_frames_locals_eq.
  destruct (negb (path_exists h path)).
  { exists []. cbn. repeat split; try constructor; try lia;
      exists []; [rewrite app_nil_r|]; reflexivity. }
  destruct (ExtractorFacts.makedirs_cases h (EXTRACTED_IMAGES_DIR h) w) as [Hd|[e Hd]];
    rewrite Hd.
  2:{ exists []. cbn. repeat split; try constructor; try lia;
        exists []; [rewrite app_nil_r|]; reflexivity. }
  cbv zeta. destruct (negb (isOpened (VideoCapture h path))).
  { exists []. cbn. repeat split; try constructor; try lia;
      exists []; [rewrite app_nil_r|]; reflexivity. }
  match goal with |- context [for_loop ?v ?d [] tps ?w0] =>
    destruct (for_loop_extends_world v d tps [] w0)
      as (ws & (Hf & Hp & [lines Ho] & [issued Hs] & _ & _) & Hlen & Hr);
    destruct (for_loop v d [] tps w0) as [[files|e] w1]
  end; cbn [fst snd fs stdout seeks set_handle with_dir] in *;
    exists ws; repeat split; eauto.
Qed.

(** X8. Confinement.  Whatever the outcome of a call, the only files it
    creates or changes are frame files [<dir>/frame_<k>s.jpg] of the output
    directory; no existing file disappears; what was printed before stays
    printed, and the earlier seeks stay in the history. *)
Theorem extraction_confined_to_frame_files :
  forall h time_points video_path w,
    let w' := snd (extract_frames_from_video h time_points video_path w) in
    (forall file,
       ~ frame_file (EXTRACTED_IMAGES_DIR h) file -> fs w' !! file = fs w !! file) /\
    (forall file, is_Some (fs w !! file) -> is_Some (fs w' !! file)) /\
    stdout w `prefix_of` stdout w' /\
    seeks w `suffix_of` seeks w'.
Proof.
  intros h tps path w.
  assert (Hw : snd (extract_frames_from_video h tps path w)
               = snd (extract_frames_locals h tps path w)).
  { rewrite ExtractorFacts.extract_frames_from_video_eq.
    destruct (extract_frames_locals h tps path w) as [[l|e] w1]; reflexivity. }
  cbv zeta. rewrite Hw.
  destruct (call_extends_world h tps path w)
    as (ws & Hf & Hp & _ & [lines Ho] & [issued Hs] & _).
  rewrite Hf, Ho, Hs.
  split; [|split; [|split]].
  - intros file Hnot. apply apply_writes_elsewhere.
    eapply Forall_impl; [exact Hp|]. cbn. intros pf Hpf E. apply Hnot.
    rewrite <- E. exact Hpf.
  - intros file. apply apply_writes_keeps.
  - exists lines. reflexivity.
  - exists issued. reflexivity.
Qed.

Lemma extraction_confined_to_frame_files_witness :
  fs (snd (extract_frames_from_video sample_host ["00:01"; "nan"] "trailer.mp4"
             empty_world)) !! "notes.txt"
  = fs empty_world !! "notes.txt".
Proof.
  apply (proj1 (extraction_confined_to_frame_files sample_host ["00:01"; "nan"]
                  "trailer.mp4" empty_world)).
  intros [k Hk]. cbn in Hk. discriminate Hk.
Defined.

(** X9. The returned list is honest.  When the call gets to its [return],
    every path in [extracted_files] is a frame file of the output directory
    that exists afterwards, and there are at most as many as time points. *)
Theorem extracted_files_exist :
  forall h time_points video_path w output_dir extracted_files w',
    extract_frames_locals h time_points video_path w
    = (Ok (output_dir, extracted_files), w') ->
    (forall file, In file extracted_files ->
       frame_file (EXTRACTED_IMAGES_DIR h) file /\ is_Some (fs w' !! file)) /\
    (length extracted_files <= length time_points)%nat.
Proof.
  intros h tps path w dir files w' Hrun.
  destruct (call_extends_world h tps path w) as (ws & Hf & Hp & Hlen & _ & _ & Hr).
  rewrite Hrun in Hf, Hr. cbn [fst snd] in Hf, Hr. subst files.
  split.
  - intros file Hin. split.
    + apply in_map_iff in Hin as (pf & <- & Hpf).
      rewrite List.Forall_forall in Hp. exact (Hp pf Hpf).
    + rewrite Hf. apply apply_writes_written. exact Hin.
  - rewrite length_map. exact Hlen.
Qed.

Lemma extracted_files_exist_witness :
  is_Some (fs (snd (extract_frames_locals sample_host ["00:01"; "00:02"] "trailer.mp4"
                      empty_world))
           !! "extracted_images/frame_2s.jpg").
Proof.
  destruct (extract_frames_locals sample_host ["00:01"; "00:02"] "trailer.mp4"
              empty_world) as [[[dir files]|e] w'] eqn:E.
  - pose proof (extracted_files_exist _ _ _ _ _ _ _ E) as [H _].
    apply H. vm_compute in E. inversion E. right. left. reflexivity.
  - vm_compute in E. discriminate E.
Defined.

(** *** Running the same batch again *)

Lemma apply_writes_absorbs (ws : list (string * frame)) (x : string * frame) :
  forall m,
    <[ fst x := snd x ]> (apply_writes (<[ fst x := snd x ]> m) ws)
    = <[ fst x := snd x ]> (apply_writes m ws).
Proof.
  induction ws as [|y ws IH]; intros m; cbn.
  - apply insert_insert_eq.
  - change (fold_left _ ws ?m0) with (apply_writes m0 ws).
    destruct (decide (fst y = fst x)) as [E|Hne].
    + rewrite E, insert_insert_eq. reflexivity.
    + rewrite (insert_insert_ne _ (fst y) (fst x)) by exact Hne. apply IH.
Qed.

Lemma apply_writes_twice (ws : list (string * frame)) :
  forall m, apply_writes (apply_writes m ws) ws = apply_writes m ws.
Proof.
  induction ws as [|x ws IH] using rev_ind; intros m; [reflexivity|].
  rewrite !apply_writes_app. cbn.
  rewrite apply_writes_absorbs, IH. reflexivity.
Qed.

(** With a memoryless decoder an iteration does the same thing from any two
    worlds. *)
Lemma loop_body_same video dir tp :
  memoryless video ->
  forall files1 files2 w1 w2,
    match loop_body video dir files1 tp w1, loop_body video dir files2 tp w2 with
    | (Ok files1', w1'), (Ok files2', w2') =>
        exists ws,
          files1' = (files1 ++ map fst ws)%list /\
          files2' = (files2 ++ map fst ws)%list /\
          fs w1' = apply_writes (fs w1) ws /\
          fs w2' = apply_writes (fs w2) ws
    | (Raise e1, _), (Raise e2, _) => e1 = e2
    | _, _ => False
    end.
Proof.
  intros Hmem files1 files2 w1 w2. unfold loop_body, bind, lift.
  destruct (parse_time_point tp) as [t|[]]; try reflexivity.
  - destruct (to_int (mul t (CAP_PROP_FPS video))) as [n|e]; [|reflexivity].
    cbn [set_and_read]. rewrite (Hmem (seeks w2) (seeks w1) n).
    destruct (seek_read video (seeks w1) n) as [f|].
    + destruct (to_int t) as [k|e]; [|reflexivity].
      exists [(path_join dir (frame_name k), f)]. repeat split.
    + exists []. cbn. rewrite !app_nil_r. repeat split.
  - exists []. cbn. rewrite !app_nil_r. repeat split.
Qed.

Lemma for_loop_same video dir tps :
  memoryless video ->
  forall files1 files2 w1 w2,
    match for_loop video dir files1 tps w1, for_loop video dir files2 tps w2 with
    | (Ok files1', w1'), (Ok files2', w2') =>
        exists ws,
          files1' = (files1 ++ map fst ws)%list /\
          files2' = (files2 ++ map fst ws)%list /\
          fs w1' = apply_writes (fs w1) ws /\
          fs w2' = apply_writes (fs w2) ws
    | (Raise e1, _), (Raise e2, _) => e1 = e2
    | _, _ => False
    end.
Proof.
  intros Hmem. induction tps as [|tp rest IH]; intros files1 files2 w1 w2.
  - exists []. cbn. rewrite !app_nil_r. repeat split.
  - rewrite !ExtractorFacts.for_loop_cons.
    pose proof (loop_body_same video dir tp Hmem files1 files2 w1 w2) as Hb.
    destruct (loop_body video dir files1 tp w1) as [[f1|e1] u1],
             (loop_body video dir files2 tp w2) as [[f2|e2] u2]; try contradiction;
      [|exact Hb].
    destruct Hb as (ws1 & -> & -> & Hu1 & Hu2).
    specialize (IH (files1 ++ map fst ws1)%list (files2 ++ map fst ws1)%list u1 u2).
    destruct (for_loop video dir (files1 ++ map fst ws1) rest u1) as [[g1|e1] v1],
             (for_loop video dir (files2 ++ map fst ws1) rest u2) as [[g2|e2] v2];
      try contradiction; [|exact IH].
    destruct IH as (ws2 & -> & -> & Hv1 & Hv2).
    exists (ws1 ++ ws2)%list.
    rewrite map_app, !app_assoc, !apply_writes_app, <- Hu1, <- Hu2.
    repeat split; assumption.
Qed.

(** X10. Reruns.  With a decoder whose answers do not depend on earlier
    seeks, running the same batch on the same video again returns the same
    list of files and leaves exactly the files of the first run: every
    frame file is overwritten by itself. *)
Theorem rerun_leaves_same_files :
  forall h time_points video_path w output_dir extracted_files w1,
    memoryless (VideoCapture h video_path) ->
    extract_frames_locals h time_points video_path w
    = (Ok (output_dir, extracted_files), w1) ->
    exists w2,
      extract_frames_locals h time_points video_path w1
      = (Ok (output_dir, extracted_files), w2) /\
      fs w2 = fs w1.
Proof.
  intros h tps path w dir files w1 Hmem Hrun.
  set (d := EXTRACTED_IMAGES_DIR h) in *.
  assert (Hmade : d <> "" /\ d ∈ dirs w1).
  { rewrite ExtractorFacts.extract_frames_locals_eq in Hrun.
    destruct (negb (path_exists h path)); [discriminate|]. fold d in Hrun.
    assert (Hname : d <> "").
    { intros E. unfold makedirs in Hrun. rewrite E in Hrun. discriminate Hrun. }
    split; [exact Hname|].
    destruct (ExtractorFacts.makedirs_cases h d w) as [Hd|[e Hd]]; rewrite Hd in Hrun;
      [|discriminate].
    cbv zeta in Hrun.
    destruct (negb (isOpened (VideoCapture h path))); [discriminate|].
    match type of Hrun with context [for_loop ?v d [] tps ?u1] =>
      destruct (for_loop_extends_world v d tps [] u1)
        as (ws & (_ & _ & _ & _ & Hdirs & _) & _);
      destruct (for_loop v d [] tps u1) as [[g1|e1] v1]; [|discriminate]
    end.
    injection Hrun as _ _ Hw1. rewrite <- Hw1.
    cbn [snd set_handle dirs with_dir] in Hdirs |- *.
    rewrite Hdirs. apply elem_of_union_l, elem_of_singleton. reflexivity. }
  destruct Hmade as [Hname Hdir].
  assert (Hagain : makedirs h d w1 = (Ok tt, with_dir d w1)).
  { unfold makedirs. apply String.eqb_neq in Hname. rewrite Hname.
    rewrite bool_decide_eq_true_2 by exact Hdir. reflexivity. }
  rewrite ExtractorFacts.extract_frames_locals_eq in Hrun |- *.
  destruct (negb (path_exists h path)); [discriminate|].
  fold d in Hrun |- *. rewrite Hagain.
  destruct (ExtractorFacts.makedirs_cases h d w) as [Hd|[e Hd]]; rewrite Hd in Hrun;
    [|discriminate].
  cbv zeta in Hrun |- *.
  destruct (negb (isOpened (VideoCapture h path))); [discriminate|].
  match type of Hrun with context [for_loop ?v d [] tps ?u1] =>
    match goal with |- context [for_loop v d [] tps ?u2] =>
      pose proof (for_loop_same v d tps Hmem [] [] u1 u2) as Hsame;
      destruct (for_loop v d [] tps u1) as [[g1|e1] v1]; [|discriminate];
      destruct (for_loop v d [] tps u2) as [[g2|e2] v2]; [|contradiction]
    end
  end.
  destruct Hsame as (ws & -> & -> & Hv1 & Hv2).
  inversion Hrun; subst. eexists. split; [reflexivity|].
  cbn [fs set_handle snd with_dir] in *.
  rewrite Hv2, Hv1. apply apply_writes_twice.
Qed.

Lemma sample_video_memoryless : memoryless sample_video.
Proof. intros h1 h2 n. reflexivity. Qed.

Lemma rerun_leaves_same_files_witness :
  exists w1 w2,
    extract_frames_locals sample_host ["00:01.2"; "00:01.7"] "trailer.mp4" empty_world
    = (Ok ("extracted_images",
           ["extracted_images/frame_1s.jpg"; "extracted_images/frame_1s.jpg"]), w1) /\
    extract_frames_locals sample_host ["00:01.2"; "00:01.7"] "trailer.mp4" w1
    = (Ok ("extracted_images",
           ["extracted_images/frame_1s.jpg"; "extracted_images/frame_1s.jpg"]), w2) /\
    fs w2 = fs w1.
Proof.
  destruct (extract_frames_locals sample_host ["00:01.2"; "00:01.7"] "trailer.mp4"
              empty_world) as [r w1] eqn:E.
  assert (Hr : r = Ok ("extracted_images",
                       ["extracted_images/frame_1s.jpg"; "extracted_images/frame_1s.jpg"])).
  { apply (f_equal fst) in E. cbn [fst] in E. rewrite <- E. vm_compute. reflexivity. }
  subst r.
  destruct (rerun_leaves_same_files sample_host _ "trailer.mp4" empty_world _ _ w1
              sample_video_memoryless E) as (w2 & H2 & Hfs).
  exists w1, w2. split; [reflexivity|]. split; [exact H2|exact Hfs].
Defined.

(** *** File names *)

Lemma string_length_app (a b : string) :
  String.length (a +:+ b) = (String.length a + String.length b)%nat.
Proof.
  induction a as [|c a IH]; [reflexivity|].
  change (String c a +:+ b) with (String c (a +:+ b)). cbn [String.length].
  rewrite IH. reflexivity.
Qed.

Lemma string_app_inj_r (s : string) :
  forall a b, a +:+ s = b +:+ s -> a = b.
Proof.
  induction a as [|c a IH]; intros b H.
  - destruct b as [|d b]; [reflexivity|].
    apply (f_equal String.length) in H. rewrite !string_length_app in H.
    cbn [String.length] in H. lia.
  - destruct b as [|d b].
    + apply (f_equal String.length) in H. rewrite !string_length_app in H.
      cbn [String.length] in H. lia.
    + change (String c (a +:+ s) = String d (b +:+ s)) in H.
      inversion H; subst. f_equal. apply IH. assumption.
Qed.

(** X11. One file per whole second.  The frame file of a time point is
    determined by its whole seconds and determines them: two time points
    are written to the same path only if [int(time_in_seconds)] is the
    same for both. *)
Theorem same_file_same_second :
  forall (dir : string) (k1 k2 : Z),
    path_join dir (frame_name k1) = path_join dir (frame_name k2) <-> k1 = k2.
Proof.
  intros dir k1 k2. split; [|intros ->; reflexivity].
  intros H.
  assert (Hn : frame_name k1 = frame_name k2).
  { unfold path_join in H. destruct dir as [|c dir]; [exact H|].
    destruct (ends_with_slash (String c dir)).
    - apply (String.app_inj (String c dir)) in H. exact H.
    - apply (String.app_inj (String c dir)) in H.
      apply (String.app_inj "/") in H. exact H. }
  unfold frame_name in Hn.
  apply (String.app_inj "frame_") in Hn.
  apply string_app_inj_r in Hn.
  apply (inj pretty). exact Hn.
Qed.

Lemma same_file_same_second_witness :
  path_join "extracted_images" (frame_name 7)
  = path_join "extracted_images" (frame_name 7).
Proof. apply (proj2 (same_file_same_second "extracted_images" 7 7)). reflexivity. Defined.

(** *** The fatal errors *)

(** X12. Before the first time point.  A missing video file ends the call
    in [FileNotFoundError] with nothing done.  When the file is there but
    the output directory cannot be made ([os.makedirs] raises: always for
    an empty name, with [FileNotFoundError]; with [FileExistsError] when a
    file has that name; or as the host refuses), the exception of
    [os.makedirs] ends the call, again with nothing done and the video not
    opened.  When the directory is made but the capture does not open, the
    call ends in [ValueError] having made the directory and nothing else:
    no time point is looked at, nothing is printed, no frame is sought or
    written, and no handle is held.  So [FileNotFoundError] comes from the
    missing video or from [os.makedirs], never from the time points. *)
Theorem missing_or_unreadable_video :
  forall h time_points video_path w,
    let d := EXTRACTED_IMAGES_DIR h in
    (path_exists h video_path = false ->
     extract_frames_from_video h time_points video_path w = (Raise FileNotFoundError, w)) /\
    (forall e,
       path_exists h video_path = true ->
       fst (makedirs h d w) = Raise e ->
       extract_frames_from_video h time_points video_path w = (Raise e, w)) /\
    (path_exists h video_path = true ->
     fst (makedirs h d w) = Ok tt ->
     isOpened (VideoCapture h video_path) = false ->
     extract_frames_from_video h time_points video_path w
     = (Raise ValueError,
        {| fs := fs w; dirs := {[ d ]} ∪ dirs w;
           stdout := stdout w; handle_open := false; seeks := seeks w |})) /\
    (fst (makedirs h d w) = Ok tt <->
     d <> "" /\ (d ∈ dirs w \/ (fs w !! d = None /\ mkdir_error h d = None))) /\
    (d = "" -> makedirs h d w = (Raise FileNotFoundError, w)) /\
    (fst (extract_frames_from_video h time_points video_path w) = Raise FileNotFoundError
     <-> path_exists h video_path = false \/
         fst (makedirs h d w) = Raise FileNotFoundError).
Proof.
  intros h tps path w d.
  rewrite ExtractorFacts.extract_frames_from_video_eq,
    ExtractorFacts.extract_frames_locals_eq. fold d.
  split; [|split; [|split; [|split; [|split]]]].
  - intros Hex. rewrite Hex. reflexivity.
  - intros e Hex Hd. rewrite Hex. cbn [negb].
    rewrite (ExtractorFacts.makedirs_raises _ _ _ _ Hd). reflexivity.
  - intros Hex Hd Hop. rewrite Hex. cbn [negb].
    rewrite (ExtractorFacts.makedirs_ok _ _ _ Hd). cbv zeta. rewrite Hop. reflexivity.
  - unfold makedirs. destruct (String.eqb_spec d "") as [E|E].
    { cbn [fst]. split; [discriminate|]. intros [Hne _]. contradiction. }
    destruct (bool_decide_reflect (d ∈ dirs w)) as [Hin|Hin].
    { cbn [fst]. split; [|reflexivity]. intros _. split; [exact E|left; exact Hin]. }
    destruct (fs w !! d) as [f|].
    { cbn [fst]. split; [discriminate|]. intros [_ [Hd|[Hd _]]]; [contradiction|discriminate]. }
    destruct (mkdir_error h d) as [e|]; cbn [fst].
    + split; [discriminate|]. intros [_ [Hd|[_ Hd]]]; [contradiction|discriminate].
    + split; [|reflexivity]. intros _. split; [exact E|right; split; reflexivity].
  - intros E. unfold makedirs. rewrite E. reflexivity.
  - destruct (path_exists h path) eqn:Hex; cbn [negb].
    2:{ cbn [fst]. split; [intros _; left; reflexivity|reflexivity]. }
    destruct (ExtractorFacts.makedirs_cases h d w) as [Hd|[e Hd]]; rewrite Hd; cbn [fst].
    2:{ split; [intros H; right; inversion H; reflexivity|].
        intros [H|H]; [discriminate|inversion H; reflexivity]. }
    cbv zeta. split; [|intros [H|H]; discriminate].
    destruct (isOpened (VideoCapture h path)); cbn [negb]; [|discriminate].
    match goal with |- context [for_loop ?v ?d0 [] tps ?w0] =>
      destruct (for_loop v d0 [] tps w0) as [[files|e] w1] eqn:Hl
    end; cbn [fst]; [discriminate|].
    intros H. inversion H; subst. exfalso.
    destruct (ExtractorFacts.for_loop_raises _ _ _ _ _ _ _ Hl); discriminate.
Qed.

Lemma missing_or_unreadable_video_witness :
  extract_frames_from_video sample_host ["00:01"] "other.mp4" empty_world
  = (Raise FileNotFoundError, empty_world) /\
  extract_frames_from_video nameless_host ["00:01"] "trailer.mp4" empty_world
  = (Raise FileNotFoundError, empty_world) /\
  extract_frames_from_video read_only_host ["00:01"] "trailer.mp4" empty_world
  = (Raise PermissionError, empty_world).
Proof.
  split; [|split].
  - apply (proj1 (missing_or_unreadable_video sample_host ["00:01"] "other.mp4"
                    empty_world)).
    reflexivity.
  - apply (proj1 (proj2 (missing_or_unreadable_video nameless_host ["00:01"]
                           "trailer.mp4" empty_world))); reflexivity.
  - apply (proj1 (proj2 (missing_or_unreadable_video read_only_host ["00:01"]
                           "trailer.mp4" empty_world))); reflexivity.
Defined.

End PlanFacts.

(** ** A batch of time points *)

Module BatchFacts.
Import Float Str TimeCode Extractor Plan.





End BatchFacts.

(** ** When the poll loop stops *)

Module PollRunFacts.
Import Poll PollRun.

Lemma turns_state (svc : service) (n : nat) :
  let v := turns n svc (start svc) in
  video_file_state v = seen svc n /\
  retries v = Z.of_nat n /\ slept v = 15 * Z.of_nat n /\
  calls v = n /\ length (printed v) = n.
Proof.
  cbv zeta. induction n as [|n (Hs & Hr & Hsl & Hc & Hp)].
  - repeat split.
  - rewrite PollFacts.turns_body.
    cbn [body video_file_state retries slept calls printed].
    rewrite length_app. cbn [length]. rewrite Hc.
    repeat split; try lia. 
Qed.

Lemma while_turns (svc : service) (n : nat) :
  forall (fuel : nat) (v : vars),
    (forall j, (j < n)%nat -> is_active (video_file_state (turns j svc v)) = false) ->
    is_active (video_file_state (turns n svc v)) = true ->
    while_not_active fuel svc v
    = if (n <=? fuel)%nat then Some (turns n svc v) else None.
Proof.
  induction n as [|n IH]; intros fuel v Hbefore Hat.
  - cbn [turns] in Hat. destruct fuel; cbn [while_not_active]; rewrite Hat; reflexivity.
  - pose proof (Hbefore 0%nat ltac:(lia)) as H0. cbn [turns] in H0.
    destruct fuel as [|fuel]; cbn [while_not_active]; rewrite H0; [reflexivity|].
    rewrite (IH fuel (body svc v)).
    + reflexivity.
    + intros j Hj. apply (Hbefore (S j)). lia.
    + exact Hat.
Qed.

(** X13. Leaving the loop.  If the first [ACTIVE] state is the [n]-th one the
    loop tests, the loop stops there and nowhere else: it makes exactly [n]
    calls of [get_file], sleeps [15 * n] seconds, prints [n] progress lines
    and ends with [retries = n], however large [n] is compared with
    [max_retries]; an upload that is already [ACTIVE] is not polled at
    all. *)
Theorem poll_exits_at_first_active :
  forall (svc : service) (n : nat),
    (forall j, (j < n)%nat -> is_active (seen svc j) = false) ->
    is_active (seen svc n) = true ->
    let v := turns n svc (start svc) in
    (forall fuel, (n <= fuel)%nat -> while_not_active fuel svc (start svc) = Some v) /\
    (forall fuel, (fuel < n)%nat -> while_not_active fuel svc (start svc) = None) /\
    video_file_state v = ACTIVE /\
    retries v = Z.of_nat n /\ slept v = 15 * Z.of_nat n /\
    calls v = n /\ length (printed v) = n.
Proof.
  intros svc n Hbefore Hat. cbv zeta.
  pose proof (turns_state svc n) as (Hs & Hr & Hsl & Hc & Hp). cbv zeta in *.
  assert (Hloop : forall fuel,
            while_not_active fuel svc (start svc)
            = if (n <=? fuel)%nat then Some (turns n svc (start svc)) else None).
  { intros fuel. apply while_turns.
    - intros j Hj. rewrite (proj1 (turns_state svc j)). apply Hbefore. exact Hj.
    - rewrite Hs. exact Hat. }
  split; [|split].
  - intros fuel Hf. rewrite Hloop. apply Nat.leb_le in Hf. rewrite Hf. reflexivity.
  - intros fuel Hf. rewrite Hloop. apply Nat.leb_gt in Hf. rewrite Hf. reflexivity.
  - repeat split; try assumption.
    rewrite Hs. destruct (seen svc n); try discriminate. reflexivity.
Qed.

Lemma poll_exits_at_first_active_witness :
  while_not_active 40 (active_from 25) (start (active_from 25))
  = Some (turns 25 (active_from 25) (start (active_from 25))) /\
  retries (turns 25 (active_from 25) (start (active_from 25))) = 25.
Proof.
  pose proof (poll_exits_at_first_active (active_from 25) 25) as H.
  destruct H as (Hrun & _ & _ & Hr & _).
  - intros j Hj. destruct j as [|j]; [reflexivity|].
    unfold seen, active_from. cbn [get_file].
    destruct (Nat.leb_spec 25 (S j)); [lia|reflexivity].
  - reflexivity.
  - split; [apply Hrun; lia|exact Hr].
Defined.

Lemma while_returns (svc : service) (fuel : nat) :
  forall v0 v,
    while_not_active fuel svc v0 = Some v ->
    is_active (video_file_state v) = true /\
    exists n, (n <= fuel)%nat /\ v = turns n svc v0.
Proof.
  induction fuel as [|fuel IH]; intros v0 v H; cbn [while_not_active] in H.
  - destruct (is_active (video_file_state v0)) eqn:E; [|discriminate].
    inversion H; subst. split; [exact E|]. exists 0%nat. split; [lia|reflexivity].
  - destruct (is_active (video_file_state v0)) eqn:E.
    + inversion H; subst. split; [exact E|]. exists 0%nat. split; [lia|reflexivity].
    + destruct (IH _ _ H) as (Ha & n & Hn & Hv).
      split; [exact Ha|]. exists (S n). split; [lia|exact Hv].
Qed.

(** X14. What the loop returns with.  Whenever the loop ends, the file is
    [ACTIVE]: no other state ends it, neither [FAILED] nor
    [STATE_UNSPECIFIED].  At that point [retries] is the number of
    [get_file] calls made, the time slept is fifteen seconds per retry, and
    one progress line was printed per retry. *)
Theorem poll_returns_only_when_active :
  forall (svc : service) (fuel : nat) (v : vars),
    while_not_active fuel svc (start svc) = Some v ->
    video_file_state v = ACTIVE /\
    retries v = Z.of_nat (calls v) /\
    slept v = 15 * retries v /\
    length (printed v) = calls v /\
    (calls v <= fuel)%nat.
Proof.
  intros svc fuel v H.
  destruct (while_returns svc fuel _ _ H) as (Ha & n & Hn & ->).
  pose proof (turns_state svc n) as (Hs & Hr & Hsl & Hc & Hp). cbv zeta in *.
  rewrite Hr, Hsl, Hc, Hp.
  repeat split; try lia.
  destruct (video_file_state (turns n svc (start svc))); try discriminate. reflexivity.
Qed.

Lemma poll_returns_only_when_active_witness :
  exists v,
    while_not_active 5 ready_after_three (start ready_after_three) = Some v /\
    video_file_state v = ACTIVE /\ slept v = 15 * retries v.
Proof.
  destruct (while_not_active 5 ready_after_three (start ready_after_three))
    as [v|] eqn:E; [|vm_compute in E; discriminate E].
  destruct (poll_returns_only_when_active ready_after_three 5 v E)
    as (Hs & _ & Hsl & _).
  exists v. split; [reflexivity|]. split; [exact Hs|exact Hsl].
Defined.

End PollRunFacts.

(** ** What the matcher returns *)

Module MatcherMore.
Import Str Matcher.

Lemma lower_ascii_idempotent (c : ascii) : lower_ascii (lower_ascii c) = lower_ascii c.
Proof. destruct c as [[] [] [] [] [] [] [] []]; reflexivity. Qed.

Lemma lower_idempotent (s : string) : lower (lower s) = lower s.
Proof.
  induction s as [|c s IH]; [reflexivity|].
  cbn [lower]. rewrite lower_ascii_idempotent, IH. reflexivity.
Qed.

Lemma filter_keys_sublist {A B} (P : A * B -> bool) (l : list (A * B)) :
  sublist (map fst (List.filter P l)) (map fst l).
Proof.
  induction l as [|x l IH]; cbn; [constructor|].
  destruct (P x); cbn; [apply sublist_skip|apply sublist_cons]; exact IH.
Qed.

(** X15. Sound and complete.  On a caption store that loads, the call returns
    normally and prints nothing; a scene is returned exactly when the store
    has it with a caption whose score against the query reaches the
    threshold; the scenes come in store order. *)
Theorem matches_are_the_passing_scenes :
  forall (partial_ratio : string -> string -> Z) (THRESHOLD : Z)
         (items : list (string * string)) (input_word : string) (out : list string),
  exists matched,
    find_matched_captions partial_ratio THRESHOLD (Captions items) input_word out
    = (Ok matched, out) /\
    (forall scene,
       In scene matched <->
       exists caption,
         In (scene, caption) items /\
         THRESHOLD <= partial_ratio (lower input_word) (lower caption)) /\
    sublist matched (map fst items).
Proof.
  intros pr T items w out. eexists. split; [reflexivity|].
  rewrite MatcherFacts.scan_filter. cbn [app].
  split; [|apply filter_keys_sublist].
  intros scene. rewrite in_map_iff. split.
  - intros ([s c] & <- & Hin). apply filter_In in Hin as [Hin Hacc].
    exists c. split; [exact Hin|]. unfold accepts in Hacc. cbn in Hacc.
    apply Z.leb_le. exact Hacc.
  - intros (c & Hin & Hle). exists (scene, c). split; [reflexivity|].
    apply filter_In. split; [exact Hin|]. unfold accepts. cbn.
    apply Z.leb_le. exact Hle.
Qed.

Lemma matches_are_the_passing_scenes_witness :
  exists matched,
    find_matched_captions prefix_score 60
      (Captions [("a.jpg", "Mario jumps"); ("b.jpg", "cooking video")]) "mario" []
    = (Ok matched, []) /\
    In "a.jpg" matched.
Proof.
  destruct (matches_are_the_passing_scenes prefix_score 60
              [("a.jpg", "Mario jumps"); ("b.jpg", "cooking video")] "mario" [])
    as (matched & Hrun & Hmem & _).
  exists matched. split; [exact Hrun|].
  apply Hmem. exists "Mario jumps". split; [left; reflexivity|].
  vm_compute. discriminate.
Defined.

Lemma scan_same_lower (pr : string -> string -> Z) (T : Z) (w1 w2 : string)
    (items1 items2 : list (string * string)) :
  lower w1 = lower w2 ->
  Forall2 (fun a b => fst a = fst b /\ lower (snd a) = lower (snd b)) items1 items2 ->
  forall matched, scan pr T w1 matched items1 = scan pr T w2 matched items2.
Proof.
  intros Hw. induction 1 as [|[s1 c1] [s2 c2] l1 l2 [Hs Hc] _ IH]; intros matched;
    [reflexivity|].
  cbn in Hs, Hc. subst s2. cbn [scan]. rewrite Hw, Hc.
  destruct (T <=? pr (lower w2) (lower c2)); apply IH.
Qed.

(** X16. Letter case.  The result does not depend on the ASCII letter case
    of the query or of the captions: two queries with the same lower-case
    form, against two stores with the same scenes and captions equal up to
    case, give the same outcome; so lower-casing the query beforehand
    changes nothing. *)
Theorem matching_ignores_case :
  forall (partial_ratio : string -> string -> Z) (THRESHOLD : Z)
         (items1 items2 : list (string * string)) (word1 word2 : string)
         (out : list string),
    lower word1 = lower word2 ->
    Forall2 (fun a b => fst a = fst b /\ lower (snd a) = lower (snd b)) items1 items2 ->
    find_matched_captions partial_ratio THRESHOLD (Captions items1) word1 out
    = find_matched_captions partial_ratio THRESHOLD (Captions items2) word2 out /\
    find_matched_captions partial_ratio THRESHOLD (Captions items1) (lower word1) out
    = find_matched_captions partial_ratio THRESHOLD (Captions items1) word1 out.
Proof.
  intros pr T items1 items2 w1 w2 out Hw Hitems. unfold find_matched_captions, ret.
  split; f_equal; f_equal.
  - apply scan_same_lower; assumption.
  - apply scan_same_lower; [apply lower_idempotent|].
    clear. induction items1; constructor; auto.
Qed.

Lemma matching_ignores_case_witness :
  find_matched_captions prefix_score 60
    (Captions [("a.jpg", "Mario Jumps")]) "MARIO" []
  = find_matched_captions prefix_score 60
    (Captions [("a.jpg", "mario jumps")]) "mario" [].
Proof.
  apply (matching_ignores_case prefix_score 60
           [("a.jpg", "Mario Jumps")] [("a.jpg", "mario jumps")] "MARIO" "mario" []).
  - reflexivity.
  - repeat constructor.
Defined.

End MatcherMore.

(** ** Caption words *)

Module WordsFacts.
Import Str Matcher Words.

Lemma chars_append (a b : string) :
  list_ascii_of_string (a +:+ b) = (list_ascii_of_string a ++ list_ascii_of_string b)%list.
Proof.
  induction a as [|c a IH]; [reflexivity|].
  change (String c a +:+ b) with (String c (a +:+ b)).
  cbn [list_ascii_of_string app]. f_equal. exact IH.
Qed.

(** Every word is a non-empty run of non-space characters of the text, so
    whatever holds of those characters holds of the words'. *)
Lemma words_from_chars (Q : ascii -> Prop) (s : string) :
  forall current,
    Forall Q (list_ascii_of_string current) ->
    Forall (fun c => is_space c = false -> Q c) (list_ascii_of_string s) ->
    Forall (fun w => w <> EmptyString /\ Forall Q (list_ascii_of_string w))
           (words_from current s).
Proof.
  induction s as [|c s IH]; intros cur Hcur Hs; cbn [words_from].
  - destruct cur; constructor; [|constructor]. split; [discriminate|exact Hcur].
  - cbn in Hs. inversion Hs as [|? ? Hc Hrest]; subst.
    destruct (is_space c) eqn:E.
    + destruct cur.
      * apply IH; [constructor|exact Hrest].
      * constructor; [split; [discriminate|exact Hcur]|].
        apply IH; [constructor|exact Hrest].
    + apply IH; [|exact Hrest].
      rewrite chars_append. apply Forall_app. split; [exact Hcur|].
      cbn. constructor; [apply Hc; reflexivity|constructor].
Qed.

Lemma lower_chars (s : string) :
  Forall (fun c => lower_ascii c = c) (list_ascii_of_string (lower s)).
Proof.
  induction s as [|c s IH]; cbn; constructor; [|exact IH].
  apply MatcherMore.lower_ascii_idempotent.
Qed.

Lemma lower_fixed (w : string) :
  Forall (fun c => lower_ascii c = c) (list_ascii_of_string w) -> lower w = w.
Proof.
  induction w as [|c w IH]; cbn; [reflexivity|].
  intros H. inversion H as [|? ? Hc Hw]; subst. rewrite Hc, (IH Hw). reflexivity.
Qed.

Lemma collect_spec (items : list (string * string)) :
  forall (words_set : gset string) (w : string),
    w ∈ collect words_set items <->
    w ∈ words_set \/
    exists scene caption,
      In (scene, caption) items /\ In w (split_whitespace (lower caption)).
Proof.
  induction items as [|[scene caption] rest IH]; intros S w; cbn [collect].
  - split; [auto|]. intros [H|(s & c & [] & _)]. exact H.
  - rewrite IH, elem_of_union, elem_of_list_to_set, list_elem_of_In. split.
    + intros [[H|H]|(s & c & Hin & Hw)].
      * left. exact H.
      * right. exists scene, caption. split; [left; reflexivity|exact H].
      * right. exists s, c. split; [right; exact Hin|exact Hw].
    + intros [H|(s & c & [Heq|Hin] & Hw)].
      * left. left. exact H.
      * inversion Heq; subst. left. right. exact Hw.
      * right. exists s, c. split; assumption.
Qed.

(** X17. The completer's word list.  On a caption store that loads,
    [load_caption_words] returns, without printing, a list with no
    duplicates whose members are exactly the whitespace-separated words of
    the lower-cased captions; every one of them is non-empty, free of
    whitespace and in lower case. *)
Theorem caption_words_are_the_lowercase_words :
  forall (items : list (string * string)) (out : list string),
  exists words,
    load_caption_words (Captions items) out = (Ok words, out) /\
    NoDup words /\
    (forall w,
       In w words <->
       exists scene caption,
         In (scene, caption) items /\ In w (split_whitespace (lower caption))) /\
    (forall w, In w words -> w <> EmptyString /\ no_space w /\ lower w = w).
Proof.
  intros items out. eexists. split; [reflexivity|].
  assert (Hmem : forall w,
            In w (elements (collect ∅ items)) <->
            exists scene caption,
              In (scene, caption) items /\ In w (split_whitespace (lower caption))).
  { intros w. rewrite <- list_elem_of_In, elem_of_elements, collect_spec.
    split; [intros [H|H]; [set_solver|exact H]|auto]. }
  split; [apply NoDup_elements|].
  split; [exact Hmem|].
  intros w Hw. apply Hmem in Hw as (scene & caption & _ & Hin).
  unfold split_whitespace in Hin.
  pose proof (words_from_chars (fun c => is_space c = false) (lower caption)
                EmptyString ltac:(constructor)
                ltac:(apply Forall_forall; auto)) as Hsp.
  pose proof (words_from_chars (fun c => lower_ascii c = c) (lower caption)
                EmptyString ltac:(constructor)
                ltac:(eapply Forall_impl; [apply lower_chars|]; cbn; auto)) as Hlo.
  rewrite List.Forall_forall in Hsp, Hlo.
  destruct (Hsp w Hin) as [Hne Hns]. destruct (Hlo w Hin) as [_ Hl].
  split; [exact Hne|]. split; [exact Hns|]. apply lower_fixed. exact Hl.
Qed.

Lemma caption_words_are_the_lowercase_words_witness :
  exists words,
    load_caption_words (Captions [("a.jpg", "Mario  jumps"); ("b.jpg", " mario RUNS ")]) []
    = (Ok words, []) /\
    In "runs" words /\ NoDup words.
Proof.
  destruct (caption_words_are_the_lowercase_words
              [("a.jpg", "Mario  jumps"); ("b.jpg", " mario RUNS ")] [])
    as (words & Hrun & Hnd & Hmem & _).
  exists words. split; [exact Hrun|]. split; [|exact Hnd].
  apply Hmem. exists "b.jpg", " mario RUNS ". split; [right; left; reflexivity|].
  vm_compute. right. left. reflexivity.
Defined.

End WordsFacts.

(** ** The prompts *)

Module PromptFacts.
Import Str Matcher Words Prompt.

Lemma while_blank_eq (user_input : string) (stdin out : list string) :
  while_blank user_input stdin out
  = if blank user_input then
      match stdin with
      | [] => (EOFError, [], (out ++ ["Please type a word."])%list)
      | line :: rest => while_blank line rest (out ++ ["Please type a word."])%list
      end
    else (Returned user_input, stdin, out).
Proof. destruct stdin; reflexivity. Qed.

Lemma while_blank_skips (blanks : list string) :
  Forall (fun line => blank line = true) blanks ->
  forall (first line : string) (rest out : list string),
    blank first = true -> blank line = false ->
    while_blank first (blanks ++ line :: rest) out
    = (Returned line, rest,
       (out ++ repeat "Please type a word." (S (length blanks)))%list).
Proof.
  induction 1 as [|b blanks Hb _ IH]; intros first line rest out Hfirst Hline.
  - cbn [app]. rewrite while_blank_eq, Hfirst, while_blank_eq, Hline. reflexivity.
  - cbn [app]. rewrite while_blank_eq, Hfirst.
    rewrite (IH b line rest _ Hb Hline). cbn [length repeat].
    rewrite <- app_assoc. reflexivity.
Qed.

Lemma while_blank_starves (lines : list string) :
  Forall (fun line => blank line = true) lines ->
  forall (first : string) (out : list string),
    blank first = true ->
    while_blank first lines out
    = (EOFError, [], (out ++ repeat "Please type a word." (S (length lines)))%list).
Proof.
  induction 1 as [|b lines Hb _ IH]; intros first out Hfirst.
  - rewrite while_blank_eq, Hfirst. reflexivity.
  - rewrite while_blank_eq, Hfirst. rewrite (IH b _ Hb).
    cbn [length repeat]. rewrite <- app_assoc. reflexivity.
Qed.

(** X18. The first word wins.  [ask_user_input] returns the first line of
    standard input that is not blank, having consumed the blank lines
    before it and nothing after it, and having printed its question once
    and "Please type a word." once for each blank line; so what it returns
    is never blank.  If every line is blank, it ends in [EOFError] when the
    input runs out. *)
Theorem ask_user_input_returns_first_word :
  (forall (blanks : list string) (line : string) (rest out : list string),
     Forall (fun l => blank l = true) blanks ->
     blank line = false ->
     ask_user_input (blanks ++ line :: rest) out
     = (Returned line, rest,
        (out ++ ["Using a video model. What would you like me to find in the video?"]
             ++ repeat "Please type a word." (length blanks))%list)) /\
  (forall (lines out : list string),
     Forall (fun l => blank l = true) lines ->
     ask_user_input lines out
     = (EOFError, [],
        (out ++ ["Using a video model. What would you like me to find in the video?"]
             ++ repeat "Please type a word." (length lines))%list)) /\
  (forall (stdin out : list string) (answer : string) (rest out' : list string),
     ask_user_input stdin out = (Returned answer, rest, out') ->
     blank answer = false).
Proof.
  split; [|split].
  - intros blanks line rest out Hb Hline. unfold ask_user_input.
    destruct Hb as [|b blanks Hb Hbs]; cbn [app length repeat].
    + rewrite while_blank_eq, Hline. reflexivity.
    + rewrite (while_blank_skips blanks Hbs b line rest _ Hb Hline).
      rewrite <- app_assoc. reflexivity.
  - intros lines out Hb. unfold ask_user_input.
    destruct Hb as [|b lines Hb Hbs]; cbn [length repeat].
    + reflexivity.
    + rewrite (while_blank_starves lines Hbs b _ Hb).
      rewrite <- app_assoc. reflexivity.
  - intros stdin out answer rest out' H. unfold ask_user_input in H.
    destruct stdin as [|first stdin]; [discriminate|].
    revert first H. generalize (out ++ ["Using a video model. What would you like me to find in the video?"])%list as o.
    induction stdin as [|l stdin IH]; intros o first H; rewrite while_blank_eq in H.
    + destruct (blank first) eqn:E; [discriminate|]. inversion H; subst. exact E.
    + destruct (blank first) eqn:E; [|inversion H; subst; exact E].
      exact (IH _ _ H).
Qed.

Lemma ask_user_input_returns_first_word_witness :
  ask_user_input [""; "   "; "mario"; "luigi"] []
  = (Returned "mario", ["luigi"],
     ["Using a video model. What would you like me to find in the video?";
      "Please type a word."; "Please type a word."]).
Proof.
  apply (proj1 ask_user_input_returns_first_word [""; "   "] "mario" ["luigi"] []).
  - repeat constructor.
  - reflexivity.
Defined.

(** X19. The image search cannot start.  [ask_user_for_search] passes an
    argument to [load_caption_words], which takes none: it ends in
    [TypeError] before the caption store is read, before anything is
    printed and before any input is consumed.  So [search_by_image], once
    [json_creation] has returned, ends in [TypeError] with the session
    exactly as [json_creation] left it: nothing is matched and no collage
    is made. *)
Theorem image_search_raises_type_error :
  (forall (OUTPUT_JSON_FILE_NAME : string) (store : caption_store)
          (stdin out : list string),
     ask_user_for_search OUTPUT_JSON_FILE_NAME store stdin out = (TypeError, stdin, out)) /\
  (forall json_creation partial_ratio image_open OUTPUT_JSON_FILE_NAME THRESHOLD
          (s s1 : session) (u : unit),
     json_creation s = (Returned u, s1) ->
     search_by_image json_creation partial_ratio image_open OUTPUT_JSON_FILE_NAME
       THRESHOLD s
     = (TypeError, s1)).
Proof.
  split; [reflexivity|].
  intros jc pr io name T s s1 u Hjc. unfold search_by_image. rewrite Hjc.
  destruct s1. reflexivity.
Qed.

Lemma image_search_raises_type_error_witness :
  fst (search_by_image (fun s => (Returned tt, s)) prefix_score Collage.any_image
         "scene_captions.json" 60
         {| console_in := ["mario"]; console_out := [];
            store := Captions [("a.jpg", "mario jumps")];
            files := ∅; browser := [] |})
  = TypeError.
Proof.
  rewrite (proj2 image_search_raises_type_error (fun s => (Returned tt, s)) prefix_score
             Collage.any_image "scene_captions.json" 60 _ _ tt eq_refl).
  reflexivity.
Defined.

End PromptFacts.
